(** * watsonx-rag: the ingestion and prompt logic of RAG.ipynb

    A shallow embedding of the notebook's helper functions (clean_text,
    get_chunks, insert_document, ensure_collection, build_prompt), of the
    ingestion cell and of the llama.cpp streaming cell, with the properties
    the specification states about them.

    A Python str is a [string]: one [ascii] per character, read as the code
    point (0..255).  Python ints are [Z]; list indices and lengths are [nat]. *)

From Stdlib Require Import ZArith Lia Bool Ascii String DecimalString DecimalZ.
From stdpp Require Import base option list strings gmap.

Local Open Scope string_scope.
Local Open Scope Z_scope.

(** * The notebook *)

(** ** Python string primitives used by the notebook *)

Module Py.

(** Characters the source writes with an escape or a quote. *)
Definition LF : ascii := "010"%char.
Definition SP : ascii := " "%char.
Definition DQUOTE : ascii := "034"%char.

(** [Py_UNICODE_ISSPACE] on the code points below 256: what [\s] of [re]
    on a str pattern matches and what [str.strip()] removes:
    TAB LF VT FF CR, FS GS RS US, space, NEL (0x85) and NBSP (0xA0). *)
Definition isspace (c : ascii) : bool :=
  let n := nat_of_ascii c in
  ((9 <=? n) && (n <=? 13) || (28 <=? n) && (n <=? 32)
   || (n =? 133) || (n =? 160))%nat.

(** [s.replace(old, new)] for one-character [old] and [new]. *)
Fixpoint replace (old new : ascii) (s : string) : string :=
  match s with
  | EmptyString => EmptyString
  | String c s' =>
      String (if Ascii.eqb c old then new else c) (replace old new s')
  end.

(** [re.sub(r"\s+", " ", s)]: every maximal run of whitespace becomes one
    space.  [in_run] tells that the previous character was whitespace, so
    that the run's replacement has been written already. *)
Fixpoint sub_spaces (in_run : bool) (s : string) : string :=
  match s with
  | EmptyString => EmptyString
  | String c s' =>
      if isspace c
      then (if in_run then sub_spaces true s'
            else String SP (sub_spaces true s'))
      else String c (sub_spaces false s')
  end.

(** Splitting at every character that satisfies [p], empty pieces kept:
    [s.split(" ")] is [split_by (Ascii.eqb " ")].  The result is never the
    empty list: the empty string gives one empty piece. *)
Fixpoint split_by (p : ascii -> bool) (s : string) : list string :=
  match s with
  | EmptyString => [EmptyString]
  | String c s' =>
      if p c then EmptyString :: split_by p s'
      else match split_by p s' with
           | w :: ws => String c w :: ws
           | [] => [String c EmptyString]
           end
  end.

(** [s.split(" ")] *)
Definition split (sep : ascii) (s : string) : list string :=
  split_by (Ascii.eqb sep) s.

(** [sep.join(l)] for a one-character separator. *)
Fixpoint join (sep : ascii) (l : list string) : string :=
  match l with
  | [] => EmptyString
  | [w] => w
  | w :: l' => w +:+ String sep (join sep l')
  end.

Fixpoint lstrip (s : string) : string :=
  match s with
  | EmptyString => EmptyString
  | String c s' => if isspace c then lstrip s' else s
  end.

Fixpoint rstrip (s : string) : string :=
  match s with
  | EmptyString => EmptyString
  | String c s' =>
      match rstrip s' with
      | EmptyString => if isspace c then EmptyString else String c EmptyString
      | r => String c r
      end
  end.

(** [s.strip()] *)
Definition strip (s : string) : string := rstrip (lstrip s).

(** [str(n)] of an int, which is what an f-string field [{n}] renders:
    decimal digits, a minus sign first for a negative number. *)
Definition str_int (n : Z) : string := NilZero.string_of_int (Z.to_int n).

(** [range(0, stop, step)] for a positive [step], as the list it iterates
    over.  [fuel] bounds the number of elements; [stop] is always enough. *)
Fixpoint range_from (fuel start stop step : nat) : list nat :=
  match fuel with
  | O => []
  | S fuel' =>
      if (start <? stop)%nat
      then start :: range_from fuel' (start + step) stop step
      else []
  end.

(** [l[i:j]] for non-negative [i] and [j]. *)
Definition slice {A} (l : list A) (i j : nat) : list A :=
  take (j - i) (drop i l).

End Py.

(** ** Exceptions *)

Inductive exn : Set :=
  ValueError | IndexError | NameError | KeyError | AttributeError | StoreError.

#[global] Instance exn_eq_dec : EqDecision exn.
Proof. solve_decision. Defined.

Inductive result (A : Type) : Type :=
| Ok (a : A)
| Raise (e : exn).
Arguments Ok {A} a.
Arguments Raise {A} e.

Definition bind {A B} (r : result A) (f : A -> result B) : result B :=
  match r with
  | Ok a => f a
  | Raise e => Raise e
  end.

Notation "x <~ r ;; k" := (bind r (fun x => k))
  (at level 100, r at next level, right associativity).

(** [for x in l: s = body x s], leaving the loop at the first exception. *)
Fixpoint for_ {A S} (l : list A) (body : A -> S -> result S) (s : S) : result S :=
  match l with
  | [] => Ok s
  | x :: l' => s' <~ body x s ;; for_ l' body s'
  end.

(** [range(0, stop, step)]: a zero step raises ValueError, a negative one
    gives the empty range (the start is below the stop). *)
Definition range (stop : nat) (step : Z) : result (list nat) :=
  if step =? 0 then Raise ValueError
  else if step <? 0 then Ok []
  else Ok (Py.range_from stop 0 stop (Z.to_nat step)).

(** ** The helper cell: clean_text and get_chunks *)

(** What get_chunks reads of a pypdf PageObject. *)
Record PageObject : Set := {
  extract_text : string;
  page_number : Z
}.

Definition clean_text (raw_text : string) : string :=
  let cleaned_text := Py.replace Py.LF Py.SP raw_text in
  let cleaned_text := Py.sub_spaces false cleaned_text in
  cleaned_text.

(** The word list of one page, as the comprehension of get_chunks builds it. *)
Definition page_words (page : PageObject) : list string :=
  Py.split " " (clean_text (extract_text page)).

(** The chunk string of a window: joined, stripped, and wrapped. *)
Definition chunk_text (chunk : list string) (page_number : Z) : string :=
  let chunk := Py.strip (Py.join " " chunk) in
  "[Page no. " +:+ Py.str_int page_number +:+ "]"
    +:+ " " +:+ String Py.DQUOTE EmptyString +:+ chunk
    +:+ String Py.DQUOTE EmptyString.

(** The two variables the loops of get_chunks update: the list [text_tokens],
    amended in place at [idx + 1], and the list [chunks], appended to. *)
Definition loop_state : Type := list (list string * Z) * list (string * Z).

(** The body of the inner loop, for one offset [i] into [words].  The test
    [(i + max_words) > len(words)] is written with [<?], sides exchanged. *)
Definition window_step (max_words idx : nat) (words : list string)
    (page_number : Z) (i : nat) (s : loop_state) : result loop_state :=
  let '(text_tokens, chunks) := s in
  let chunk := Py.slice words i (i + max_words) in
  if ((length words <? i + max_words) && (length chunk <? max_words)
      && negb (length text_tokens =? idx + 1))%nat
  then
    match text_tokens !! (idx + 1)%nat with
    | Some next_page =>
        Ok (<[(idx + 1)%nat := ((chunk ++ next_page.1)%list, next_page.2)]> text_tokens,
            chunks)
    | None => Raise IndexError
    end
  else
    Ok (text_tokens, (chunks ++ [(chunk_text chunk page_number, page_number)])%list).

(** The body of the outer loop: the pair at [idx] is read when the iteration
    starts, so it holds what earlier pages carried into it. *)
Definition page_step (max_words : Z) (idx : nat) (s : loop_state)
    : result loop_state :=
  match s.1 !! idx with
  | None => Raise IndexError
  | Some (words, page_number) =>
      offsets <~ range (length words) max_words ;;
      for_ offsets (window_step (Z.to_nat max_words) idx words page_number) s
  end.

Definition get_chunks (pages : list PageObject) (max_words : Z)
    : result (list (string * Z)) :=
  let text_tokens := map (fun page => (page_words page, page_number page)) pages in
  s <~ for_ (seq 0 (length text_tokens)) (page_step max_words) (text_tokens, []) ;;
  Ok s.2.

(** The default of the parameter [max_words]. *)
Definition default_max_words : Z := 150.

(** ** insert_document: the identifiers *)

(** The f-string [{document_name}_p{page_number}-{chunk_index}]. *)
Definition document_id (document_name : string) (page_number : Z)
    (chunk_index : nat) : string :=
  document_name +:+ "_p" +:+ Py.str_int page_number
    +:+ "-" +:+ Py.str_int (Z.of_nat chunk_index).

(** The loop over [enumerate(chunks)], from index [chunk_index] on: it
    appends to [document_chunks] and to [document_ids]. *)
Fixpoint id_loop (document_name : string) (chunk_index : nat)
    (chunks : list (string * Z)) (acc : list string * list string)
    : list string * list string :=
  match chunks with
  | [] => acc
  | (chunk, page_number) :: rest =>
      let '(document_chunks, document_ids) := acc in
      id_loop document_name (S chunk_index) rest
        ((document_chunks ++ [chunk])%list,
         (document_ids ++ [document_id document_name page_number chunk_index])%list)
  end.

(** [document_path.stem.replace(" ", "-").replace("_", "-")] *)
Definition document_name_of (stem : string) : string :=
  Py.replace "_" "-" (Py.replace " " "-" stem).

(** The two lists that insert_document hands to [collection.add]. *)
Definition document_entries (document_name : string) (chunks : list (string * Z))
    : list string * list string :=
  id_loop document_name 0 chunks ([], []).

(** ** build_prompt *)

(** The string ["\n"]. *)
Definition NL : string := String Py.LF EmptyString.

(** The instruction block, the adjacent literals of the source joined. *)
Definition instructions : string :=
  "Instructions: Compose a comprehensive reply to the query using the search results given. "
  +:+ "If the search results mention multiple subjects "
  +:+ "with the same name, create separate answers for each. Only include information found in the results and "
  +:+ "don't add any additional information. Make sure the answer is correct and don't output false content. "
  +:+ "If the text does not relate to the query, simply state 'Found Nothing'. Ignore outlier "
  +:+ "search results which has nothing to do with the question. Only answer what is asked. The "
  +:+ "answer should be short and concise.".

Definition build_prompt (question : string) (topn_chunks : list string) : string :=
  let prompt := "Search results:" +:+ NL in
  let prompt :=
    fold_left (fun prompt chunk => prompt +:+ (chunk +:+ NL +:+ NL))
              topn_chunks prompt in
  let prompt := prompt +:+ instructions in
  let prompt :=
    prompt +:+ (NL +:+ NL +:+ NL +:+ "Query: " +:+ question
                +:+ NL +:+ NL +:+ "Answer: ") in
  prompt.

(** ** The vector store and the ingestion cell

    The store is the library's.  Its model keeps what the notebook relies
    on: collections are found by name, [get_collection] raises ValueError
    for a name that is absent, [get_or_create_collection] creates an empty
    collection with the given metadata unless the name exists, and [add]
    hands documents and identifiers to a collection, which keeps one entry
    per identifier.  Whether the store accepts an [add] is its own matter:
    [rejects] stands for that check, and a rejected call raises.  Every
    call of [add] is logged, and the statements about the ingestion speak
    of that log. *)

Record Collection : Type := {
  metadata : list (string * string);
  documents : list string;
  ids : list string
}.

(** One call of [collection.add]: the collection's name and the arguments. *)
Record AddCall : Type := {
  add_to : string;
  add_documents : list string;
  add_ids : list string
}.

Record World : Type := {
  collections : gmap string Collection;
  add_calls : list AddCall;
  stdout : list string
}.

(** Code that runs against the store: it returns or raises, and leaves a
    world behind either way. *)
Definition M (A : Type) : Type := World -> result A * World.

Definition ret {A} (a : A) : M A := fun w => (Ok a, w).

Definition raise {A} (e : exn) : M A := fun w => (Raise e, w).

Definition bindM {A B} (m : M A) (f : A -> M B) : M B :=
  fun w =>
    match m w with
    | (Ok a, w') => f a w'
    | (Raise e, w') => (Raise e, w')
    end.

Notation "x <-- m ;; k" := (bindM m (fun x => k))
  (at level 100, m at next level, right associativity).

(** [try: body  except e: handler] *)
Definition try_except {A} (body : M A) (e : exn) (handler : M A) : M A :=
  fun w =>
    match body w with
    | (Raise e', w') => if decide (e' = e) then handler w' else (Raise e', w')
    | r => r
    end.

(** [for x in l: body x] *)
Fixpoint forM {A} (l : list A) (body : A -> M unit) : M unit :=
  match l with
  | [] => ret tt
  | x :: l' => _ <-- body x ;; forM l' body
  end.

Definition print (line : string) : M unit :=
  fun w => (Ok tt, {| collections := collections w;
                      add_calls := add_calls w;
                      stdout := (stdout w ++ [line])%list |}).

Inductive CollectionStatus : Set := COLLECTION_CREATED | COLLECTION_EXISTS.

(** What [PdfReader(document_path)] and [document_path.stem] give, for a
    file that pypdf reads.  The notebook catches no exception of PdfReader
    or of [extract_text]: such a failure ends the cell where it occurs.
    The runs modelled here are those in which every PDF is read. *)
Record Document : Type := {
  stem : string;
  pages : list PageObject
}.

Section Store.

Variable rejects : Collection -> list string -> list string -> bool.

(** [client.get_collection(name=name)]: the handle is the name. *)
Definition get_collection (name : string) : M string :=
  fun w =>
    match collections w !! name with
    | Some _ => (Ok name, w)
    | None => (Raise ValueError, w)
    end.

(** [client.get_or_create_collection(name=name, metadata=md)] *)
Definition get_or_create_collection (name : string)
    (md : list (string * string)) : M string :=
  fun w =>
    match collections w !! name with
    | Some _ => (Ok name, w)
    | None =>
        (Ok name,
         {| collections :=
              <[name := {| metadata := md; documents := []; ids := [] |}]>
                (collections w);
            add_calls := add_calls w;
            stdout := stdout w |})
    end.

(** [collection.add(documents=docs, ids=new_ids)].  Of the entries of a
    call that it accepts, the store takes those whose identifier the
    collection does not hold yet; the others are left out, and nothing is
    raised for them. *)
Definition add (collection : string) (docs new_ids : list string) : M unit :=
  fun w =>
    let w' := {| collections := collections w;
                 add_calls :=
                   (add_calls w
                    ++ [{| add_to := collection; add_documents := docs;
                           add_ids := new_ids |}])%list;
                 stdout := stdout w |} in
    match collections w !! collection with
    | None => (Raise StoreError, w')
    | Some c =>
        if rejects c docs new_ids then (Raise StoreError, w')
        else
          let taken :=
            filter (fun entry : string * string => entry.2 ∉ ids c)
                   (zip docs new_ids) in
          (Ok tt,
           {| collections :=
                <[collection :=
                    {| metadata := metadata c;
                       documents := (documents c ++ map fst taken)%list;
                       ids := (ids c ++ map snd taken)%list |}]> (collections w);
              add_calls := add_calls w';
              stdout := stdout w |})
    end.

Definition demo_collection : string := "harry_potter".

Definition ensure_collection : M (CollectionStatus * option string) :=
  try_except
    (_ <-- get_collection demo_collection ;;
     ret (COLLECTION_EXISTS, None))
    ValueError
    (collection <-- get_or_create_collection demo_collection
                      [("hnsw:space", "cosine")] ;;
     ret (COLLECTION_CREATED, Some collection)).

(** [collection] is the Optional that ensure_collection returned: a call
    of [add] on None raises AttributeError. *)
Definition insert_document (document : Document) (collection : option string)
    : M unit :=
  let document_name := document_name_of (stem document) in
  match get_chunks (pages document) default_max_words with
  | Raise e => raise e
  | Ok chunks =>
      let '(document_chunks, document_ids) :=
        document_entries document_name chunks in
      match collection with
      | None => raise AttributeError
      | Some c => add c document_chunks document_ids
      end
  end.

(** The ingestion cell, from the call of ensure_collection on; [pdfs] is
    what [files_directory.glob("*.pdf")] yields. *)
Definition ingest (pdfs : list Document) : M CollectionStatus :=
  r <-- ensure_collection ;;
  let '(collection_status, collection) := r in
  match collection_status with
  | COLLECTION_EXISTS =>
      _ <-- print "Collection already exists. No new files are loaded." ;;
      ret collection_status
  | COLLECTION_CREATED =>
      _ <-- print "Creating collection..." ;;
      _ <-- forM pdfs (fun document_path =>
                         insert_document document_path collection) ;;
      ret collection_status
  end.

End Store.

(** ** The llama.cpp streaming cell

    A fragment of the response is represented by what
    [json.loads(chunk.decode('utf-8')[6:])] makes of it: a JSON object, or
    an exception.  [data] is a variable of the notebook: it is unbound
    until the first fragment has been parsed. *)

Inductive json : Type :=
| JNull
| JBool (b : bool)
| JString (s : string)
| JOther (repr : string).

Inductive fragment : Type :=
| Payload (data : gmap string json)
| Malformed.

(** [str(v)], as [print] writes it; a number, list or object carries its
    printed form. *)
Definition str_json (v : json) : string :=
  match v with
  | JNull => "None"
  | JBool true => "True"
  | JBool false => "False"
  | JString s => s
  | JOther repr => repr
  end.

(** [v is False] *)
Definition is_False (v : json) : bool :=
  match v with
  | JBool false => true
  | _ => false
  end.

(** [d[key]] *)
Definition getitem (d : gmap string json) (key : string) : result json :=
  match d !! key with
  | Some v => Ok v
  | None => Raise KeyError
  end.

Record Cell : Type := {
  data : option (gmap string json);
  printed_text : string
}.

(** The body of the loop over the fragments. *)
Definition consume_step (chunk : fragment) (s : Cell) : result Cell :=
  (* try: data = json.loads(...)   except: pass *)
  let data' :=
    match chunk with
    | Payload d => Some d
    | Malformed => data s
    end in
  match data' with
  | None => Raise NameError
  | Some d =>
      stop <~ getitem d "stop" ;;
      if is_False stop
      then
        content <~ getitem d "content" ;;
        Ok {| data := data';
              printed_text := printed_text s +:+ str_json content |}
      else
        timings <~ getitem d "timings" ;;
        Ok {| data := data';
              printed_text :=
                printed_text s +:+ NL +:+ NL +:+ NL
                  +:+ str_json timings +:+ NL |}
  end.

Definition consume (chunks : list fragment) (s : Cell) : result Cell :=
  for_ chunks consume_step s.

(** What a run has printed. *)
Definition printed_by (r : result Cell) : result string :=
  s <~ r ;; Ok (printed_text s).

(** The state of a fresh kernel. *)
Definition fresh_cell : Cell := {| data := None; printed_text := "" |}.

(** ** The ingestion cell, from its first line

    [Disk] is what the cell reads of the file system: whether the
    directory [db] exists, and the PDF files of the directory [db_files],
    if that directory exists.  [Path.glob] on a directory that does not
    exist yields nothing. *)




Section Cell.

Variable rejects : Collection -> list string -> list string -> bool.


End Cell.

(** ** The watsonx streaming cell

    [responses] are the fragments that [model.generate_text_stream(prompt)]
    yields.  [cursor] is the one-character string that the cell prints for
    the first of them (the character U+258C, which lies outside the code
    points that the strings here hold). *)

Section Hosted.

Variable cursor : string.

(** The loop over [enumerate(...)], from [count] on; [out] is what has been
    printed. *)
Fixpoint print_stream_from (count : nat) (responses : list string) (out : string)
    : string :=
  match responses with
  | [] => out
  | response :: rest =>
      print_stream_from (S count) rest
        (if (count =? 0)%nat then out +:+ cursor +:+ NL else out +:+ response)
  end.

Definition print_stream (responses : list string) : string :=
  print_stream_from 0 responses EmptyString.

End Hosted.

(** * Definitions for the statements *)

(** ** get_chunks as one pass with a buffer of carried words

    The loops of get_chunks amend [text_tokens] in place.  The same output is
    computed by a pass that hands the carried words on explicitly; the
    theorems below are proved on that pass, and [get_chunks_emit] shows that
    it is what the loops compute. *)

(** The windows of one page's list [l] and what is carried out of it:
    [has_next] tells that a further page exists. *)
Fixpoint page_windows (fuel k : nat) (has_next : bool) (l : list string)
    : list (list string) * list string :=
  match fuel with
  | O => ([], [])
  | S fuel' =>
      match l with
      | [] => ([], [])
      | _ :: _ =>
          if (length l <? k)%nat && has_next then ([], l)
          else
            let '(ws, c) := page_windows fuel' k has_next (drop k l) in
            (take k l :: ws, c)
      end
  end.

Definition has_next {A} (rest : list A) : bool :=
  match rest with [] => false | _ :: _ => true end.

(** The emitted windows, each with the page number it is labelled with. *)
Fixpoint emit (k : nat) (carry : list string) (text_tokens : list (list string * Z))
    : list (list string * Z) :=
  match text_tokens with
  | [] => []
  | (words, page_number) :: rest =>
      let words := (carry ++ words)%list in
      let '(ws, c) := page_windows (length words) k (has_next rest) words in
      (map (fun w => (w, page_number)) ws ++ emit k c rest)%list
  end.

Definition text_tokens_of (pages : list PageObject) : list (list string * Z) :=
  map (fun page => (page_words page, page_number page)) pages.

Definition render (w : list string * Z) : string * Z :=
  (chunk_text w.1 w.2, w.2).

(** [text_tokens[j] = (c + text_tokens[j][0], text_tokens[j][1])] *)
Definition carry_into (j : nat) (c : list string) (tt : list (list string * Z))
    : list (list string * Z) :=
  match tt !! j with
  | Some next_page => <[j := ((c ++ next_page.1)%list, next_page.2)]> tt
  | None => tt
  end.

(** ** Words

    [words s] is [s.split()]: the maximal runs of characters that are not
    whitespace.  It is the notion of word the theorems use, for page texts
    and for chunk texts alike.  The entries of a page's word list
    ([page_words], split at single spaces) are its words plus, possibly,
    empty strings. *)

Fixpoint all_chars (p : ascii -> bool) (s : string) : bool :=
  match s with
  | EmptyString => true
  | String c s' => p c && all_chars p s'
  end.

Definition not_space (c : ascii) : bool := negb (Py.isspace c).

Definition nonempty (l : list string) : list string :=
  filter (fun w : string => w <> EmptyString) l.

Definition words (s : string) : list string :=
  nonempty (Py.split_by Py.isspace s).

(** ** Reading a chunk string back

    [unwrap] strips the wrapper that get_chunks puts around a chunk text: the
    label up to the first closing bracket, the space and the opening quote
    after it, and the closing quote at the end. *)

Fixpoint strip_prefix (pre s : string) : option string :=
  match pre, s with
  | EmptyString, _ => Some s
  | String a pre', String b s' =>
      if Ascii.eqb a b then strip_prefix pre' s' else None
  | String _ _, EmptyString => None
  end.

Fixpoint after (c : ascii) (s : string) : option string :=
  match s with
  | EmptyString => None
  | String x s' => if Ascii.eqb x c then Some s' else after c s'
  end.

Fixpoint strip_last (c : ascii) (s : string) : option string :=
  match s with
  | EmptyString => None
  | String x EmptyString => if Ascii.eqb x c then Some EmptyString else None
  | String x s' => String x <$> strip_last c s'
  end.

Definition unwrap (chunk : string) : option string :=
  s1 ← strip_prefix "[Page no. " chunk;
  s2 ← after "]" s1;
  s3 ← strip_prefix (String " " (String Py.DQUOTE EmptyString)) s2;
  strip_last Py.DQUOTE s3.

(** The words of one chunk; [None] if the chunk string does not have the
    wrapper. *)
Definition chunk_words (chunk : string * Z) : option (list string) :=
  words <$> unwrap chunk.1.

(** The words of the chunks of one document, in emission order. *)
Fixpoint chunks_words (chunks : list (string * Z)) : option (list string) :=
  match chunks with
  | [] => Some []
  | chunk :: rest =>
      ws ← chunk_words chunk;
      more ← chunks_words rest;
      Some (ws ++ more)%list
  end.

(** The numbers of words of the chunks, in emission order. *)
Definition word_counts (chunks : list (string * Z)) : list (option nat) :=
  map (fun chunk => length <$> chunk_words chunk) chunks.

Definition is_digit (c : ascii) : bool :=
  let n := nat_of_ascii c in ((48 <=? n) && (n <=? 57))%nat.

(** A text is tidy when it is not empty and neither starts nor ends with
    whitespace. *)
Definition starts_ws (s : string) : bool :=
  match s with
  | EmptyString => false
  | String c _ => Py.isspace c
  end.

Fixpoint ends_ws (s : string) : bool :=
  match s with
  | EmptyString => false
  | String c EmptyString => Py.isspace c
  | String _ s' => ends_ws s'
  end.

Definition tidy (s : string) : Prop :=
  s <> EmptyString /\ starts_ws s = false /\ ends_ws s = false.

(** A window is full when it has [k] entries. *)
Definition full (k : nat) (w : list string) : Prop := length w = k.

Definition entries_not_space (ws : list string) : Prop :=
  Forall (fun w => all_chars not_space w = true) ws.

Definition no_dash (s : string) : Prop :=
  all_chars (fun c => negb (Ascii.eqb c "-")) s = true.

(** ** The ingestion cell: what a run adds *)

(** The call of [add] that insert_document makes for a document. *)
Definition document_add (document : Document) : AddCall :=
  let chunks :=
    match get_chunks (pages document) default_max_words with
    | Ok chunks => chunks
    | Raise _ => []
    end in
  let entries := document_entries (document_name_of (stem document)) chunks in
  {| add_to := demo_collection;
     add_documents := entries.1;
     add_ids := entries.2 |}.

Definition exists_in (w : World) : Prop :=
  is_Some (collections w !! demo_collection).

(** The world after [print line]. *)
Definition printed (line : string) (w : World) : World :=
  {| collections := collections w;
     add_calls := add_calls w;
     stdout := (stdout w ++ [line])%list |}.

(** The world after the collection has been created. *)
Definition created (w : World) : World :=
  {| collections :=
       <[demo_collection :=
           {| metadata := [("hnsw:space", "cosine")];
              documents := []; ids := [] |}]> (collections w);
     add_calls := add_calls w;
     stdout := stdout w |}.

(** ** The streaming cell as the specification describes it *)

(** What the specification describes: a fragment that fails to parse is
    dropped, and the loop goes on with the next one. *)
Definition consume_step_discarding (chunk : fragment) (s : Cell) : result Cell :=
  match chunk with
  | Malformed => Ok s
  | Payload _ => consume_step chunk s
  end.

(** ** Inputs of the examples *)

Definition mk_page (n : Z) (text : string) : PageObject :=
  {| extract_text := text; page_number := n |}.

(** Two pages, four words, max_words = 2: the first page's text starts with
    a space, so its word list starts with an empty string, which fills a
    place in the first window. *)
Definition leading_space_pages : list PageObject :=
  [mk_page 1 " a b c"; mk_page 2 "d"].

(** Two pages of tidy texts, five words, max_words = 2: the last word of
    the first page is carried into the second page's list. *)
Definition tidy_pages : list PageObject :=
  [mk_page 1 "a b c"; mk_page 2 "d e"].

(** The chunk string with label [n] and text [text], for the examples. *)
Definition labelled (n text : string) : string :=
  "[Page no. " +:+ n +:+ "] " +:+ String Py.DQUOTE text +:+ String Py.DQUOTE "".

(** The words w0 w1 ... of a page of [n] words, single-spaced. *)
Definition numbered_words (n : nat) : string :=
  Py.join " " (map (fun i => "w" +:+ Py.str_int (Z.of_nat i)) (seq 0 n)).

(** A page of 170 words and a page of 80 words whose texts end with a
    line break. *)
Definition page_170 : PageObject := mk_page 1 (numbered_words 170 +:+ NL).

Definition page_80 : PageObject := mk_page 2 (numbered_words 80 +:+ NL).

(** The page of 170 words with a space before its first word. *)
Definition page_170_indented : PageObject :=
  mk_page 1 (" " +:+ numbered_words 170).

Definition empty_world : World :=
  {| collections := ∅; add_calls := []; stdout := [] |}.

Definition accepts_all (c : Collection) (docs new_ids : list string) : bool :=
  false.

Definition sample_pdf : Document :=
  {| stem := "my book_1"; pages := [mk_page 0 "a b c"] |}.

Definition text_fragment (content : string) : fragment :=
  Payload (<["content" := JString content]> (<["stop" := JBool false]> ∅)).

(** ** Further definitions for the statements *)

(** A text is single-spaced when its only whitespace characters are spaces
    and no two of them are adjacent; [prev_space] tells that the character
    before the text is whitespace. *)
Fixpoint single_spaced (prev_space : bool) (s : string) : bool :=
  match s with
  | EmptyString => true
  | String c s' =>
      if Py.isspace c
      then Ascii.eqb c " " && negb prev_space && single_spaced true s'
      else single_spaced false s'
  end.

(** The page with its text cleaned. *)
Definition clean_page (page : PageObject) : PageObject :=
  {| extract_text := clean_text (extract_text page);
     page_number := page_number page |}.

(** The windows of [k] entries of one list, the last one possibly shorter. *)
Definition windows_of (k : nat) (l : list string) : list (list string) :=
  (page_windows (length l) k false l).1.

(** All entries of a document, in page order. *)
Definition all_entries (pages : list PageObject) : list string :=
  concat (map page_words pages).



(** A fragment that parses to an object with [stop] false and a
    [content]. *)
Definition carries (chunk : fragment) (content : json) : Prop :=
  exists d,
    chunk = Payload d
    /\ d !! "stop" = Some (JBool false)
    /\ d !! "content" = Some content.

(** * Properties *)

(** ** The loops of get_chunks compute the pass *)

Section Refinement.

Variable k : nat.
Hypothesis k_pos : (0 < k)%nat.

Lemma carry_into_nil j tt : carry_into j [] tt = tt.
Proof.
  unfold carry_into. destruct (tt !! j) as [[w n]|] eqn:E; [|done].
  simpl. by apply list_insert_id.
Qed.

Lemma carry_into_app done x c w n rest :
  carry_into (length done + 1) c (done ++ x :: (w, n) :: rest)
  = ((done ++ [x]) ++ ((c ++ w)%list, n) :: rest)%list.
Proof.
  unfold carry_into.
  replace (done ++ x :: (w, n) :: rest)%list
    with ((done ++ [x]) ++ (w, n) :: rest)%list by by rewrite <- app_assoc.
  assert (L : (length done + 1)%nat = length (done ++ [x])%list)
    by (rewrite length_app; simpl; lia).
  rewrite L, list_lookup_middle by done. simpl.
  rewrite <- (Nat.add_0_r (length (done ++ [x])%list)) at 1.
  by rewrite insert_app_r.
Qed.

(** The inner loop, started at any offset [i]. *)
Lemma inner_loop idx words n fuel : forall i tt chunks,
  (length words - i <= fuel)%nat ->
  (idx < length tt)%nat ->
  for_ (Py.range_from fuel i (length words) k)
       (window_step k idx words n) (tt, chunks)
  = let '(ws, c) :=
      page_windows fuel k (negb (length tt =? idx + 1)%nat) (drop i words) in
    Ok (carry_into (idx + 1) c tt,
        (chunks ++ map render (map (fun w => (w, n)) ws))%list).
Proof.
  induction fuel as [|fuel IH]; intros i tt chunks Hf Hidx; simpl.
  - by rewrite carry_into_nil, app_nil_r.
  - destruct (Nat.ltb_spec i (length words)) as [Hi|Hi].
    2:{ rewrite drop_ge by lia. by rewrite carry_into_nil, app_nil_r. }
    assert (Hd : length (drop i words) = (length words - i)%nat)
      by apply length_drop.
    destruct (drop i words) as [|x l] eqn:El; [simpl in Hd; lia|].
    rewrite <- El in *. clear El x l.
    simpl. unfold Py.slice.
    replace (i + k - i)%nat with k by lia.
    rewrite length_take, Hd.
    destruct (Nat.ltb_spec (length words - i) k) as [Hlt|Hge].
    + (* the last window of the page, and a short one *)
      replace (length words <? i + k)%nat with true
        by (symmetry; apply Nat.ltb_lt; lia).
      replace (k `min` (length words - i) <? k)%nat with true
        by (symmetry; apply Nat.ltb_lt; lia).
      simpl. destruct (length tt =? idx + 1)%nat eqn:Elast; simpl.
      * (* no further page: emitted *)
        rewrite (IH (i + k)%nat) by lia.
        rewrite Elast. simpl. rewrite drop_drop.
        rewrite (drop_ge words (i + k)) by lia.
        destruct fuel; simpl; rewrite carry_into_nil;
          by rewrite <- app_assoc.
      * (* carried into the next page *)
        apply Nat.eqb_neq in Elast.
        destruct (lookup_lt_is_Some_2 tt (idx + 1)) as [nx Hnx]; [lia|].
        rewrite Hnx. rewrite take_ge by lia.
        assert (Hr : Py.range_from fuel (i + k) (length words) k = []).
        { destruct fuel; [done|]. simpl.
          by replace (i + k <? length words)%nat with false
            by (symmetry; apply Nat.ltb_ge; lia). }
        rewrite Hr. simpl. unfold carry_into. rewrite Hnx.
        by rewrite app_nil_r.
    + (* a full window *)
      replace (k `min` (length words - i) <? k)%nat with false
        by (symmetry; apply Nat.ltb_ge; lia).
      rewrite andb_false_r. simpl.
      rewrite (IH (i + k)%nat) by lia.
      rewrite drop_drop.
      destruct (page_windows fuel k _ (drop (i + k) words)) as [ws c].
      simpl. by rewrite <- app_assoc.
Qed.

(** The outer loop, from the page at index [length done] on. *)
Lemma outer_loop : forall rest done words n chunks,
  exists tt',
    for_ (seq (length done) (S (length rest))) (page_step (Z.of_nat k))
         ((done ++ (words, n) :: rest)%list, chunks)
    = Ok (tt', (chunks ++ map render (emit k [] ((words, n) :: rest)))%list).
Proof.
  induction rest as [|[w' n'] rest IH]; intros done words n chunks.
  - simpl. unfold page_step at 1. simpl.
    rewrite list_lookup_middle by done.
    unfold range. rewrite Nat2Z.id.
    replace (Z.of_nat k =? 0) with false by (symmetry; apply Z.eqb_neq; lia).
    replace (Z.of_nat k <? 0) with false by (symmetry; apply Z.ltb_ge; lia).
    simpl. rewrite inner_loop.
    2: lia. 2: { rewrite length_app. simpl. lia. }
    rewrite drop_0.
    replace (length (done ++ [(words, n)]) =? length done + 1)%nat with true
      by (symmetry; apply Nat.eqb_eq; rewrite length_app; simpl; lia).
    simpl. destruct (page_windows _ _ _ _) as [ws c]. simpl.
    eexists. by rewrite app_nil_r.
  - cbn [length]. remember (S (length rest)) as m eqn:Em.
    cbn [seq for_]. subst m. unfold page_step at 1. cbn [fst].
    rewrite list_lookup_middle by done.
    unfold range. rewrite Nat2Z.id.
    replace (Z.of_nat k =? 0) with false by (symmetry; apply Z.eqb_neq; lia).
    replace (Z.of_nat k <? 0) with false by (symmetry; apply Z.ltb_ge; lia).
    cbn [bind]. rewrite inner_loop.
    2: lia. 2: { rewrite length_app. simpl. lia. }
    rewrite drop_0.
    replace (length (done ++ (words, n) :: (w', n') :: rest) =? length done + 1)%nat
      with false
      by (symmetry; apply Nat.eqb_neq; rewrite length_app; simpl; lia).
    cbn [negb emit has_next app].
    destruct (page_windows (length words) k true words) as [ws c].
    cbn [bind]. rewrite carry_into_app.
    destruct (IH (done ++ [(words, n)])%list (c ++ w')%list n'
                 (chunks ++ map render (map (fun w => (w, n)) ws))%list)
      as [tt' Htt'].
    replace (length (done ++ [(words, n)])) with (S (length done)) in Htt'
      by (rewrite length_app; simpl; lia).
    exists tt'. rewrite Htt'. f_equal. f_equal.
    rewrite <- app_assoc, map_app. f_equal.
Qed.

(** get_chunks computes the rendering of [emit]. *)
Lemma get_chunks_emit pages :
  get_chunks pages (Z.of_nat k)
  = Ok (map render (emit k [] (text_tokens_of pages))).
Proof.
  unfold get_chunks. fold (text_tokens_of pages).
  destruct (text_tokens_of pages) as [|[words n] rest]; [done|].
  destruct (outer_loop rest [] words n []) as [tt' H].
  cbn [length app] in H. cbn [length]. by rewrite H.
Qed.

End Refinement.

(** ** Splitting, joining, stripping, and words *)

Section StringFacts.

Implicit Types (s t w : string) (c : ascii) (p q : ascii -> bool).

Lemma all_chars_impl p q s :
  (forall c, p c = true -> q c = true) ->
  all_chars p s = true -> all_chars q s = true.
Proof.
  intros Hpq. induction s as [|c s IH]; simpl; [done|].
  rewrite !andb_true_iff. intros [? ?]. auto.
Qed.

Lemma all_chars_app p s t :
  all_chars p (s +:+ t) = all_chars p s && all_chars p t.
Proof.
  induction s as [|c s IH]; simpl; [done|]. by rewrite IH, andb_assoc.
Qed.

Lemma split_by_nonnil p s : Py.split_by p s <> [].
Proof.
  destruct s as [|c s]; simpl; [done|].
  destruct (p c); [done|]. by destruct (Py.split_by p s).
Qed.

Lemma split_by_app p s t c :
  p c = true ->
  Py.split_by p (s +:+ String c t) = (Py.split_by p s ++ Py.split_by p t)%list.
Proof.
  intros Hc. induction s as [|x s IH]; simpl.
  - by rewrite Hc.
  - rewrite IH. destruct (p x); [done|].
    pose proof (split_by_nonnil p s).
    by destruct (Py.split_by p s).
Qed.

Lemma split_by_whole p w :
  all_chars (fun c => negb (p c)) w = true -> Py.split_by p w = [w].
Proof.
  induction w as [|c w IH]; simpl; [done|].
  rewrite andb_true_iff, negb_true_iff. intros [-> Hw]. by rewrite IH.
Qed.

Lemma split_by_chars p q s :
  all_chars q s = true ->
  Forall (fun w => all_chars (fun c => q c && negb (p c)) w = true)
         (Py.split_by p s).
Proof.
  induction s as [|c s IH]; simpl.
  - intros _. by repeat constructor.
  - rewrite andb_true_iff. intros [Hc Hs]. specialize (IH Hs).
    destruct (p c) eqn:Epc; [by constructor|].
    destruct (Py.split_by p s) as [|w ws]; [by repeat constructor; simpl; rewrite Hc, Epc|].
    inversion IH; subst. constructor; [|done].
    simpl. by rewrite Hc, Epc.
Qed.

Lemma join_split sep s : Py.join sep (Py.split sep s) = s.
Proof.
  unfold Py.split. induction s as [|c s IH]; simpl; [done|].
  pose proof (split_by_nonnil (Ascii.eqb sep) s) as Hn.
  destruct (Ascii.eqb_spec sep c) as [->|Hne].
  - destruct (Py.split_by (Ascii.eqb c) s) as [|w ws]; [done|].
    simpl in *. by rewrite IH.
  - destruct (Py.split_by (Ascii.eqb sep) s) as [|w ws]; [done|].
    destruct ws as [|w' ws]; simpl in *; by rewrite <- IH.
Qed.

Lemma join_cons sep w w' l :
  Py.join sep (w :: w' :: l) = w +:+ String sep (Py.join sep (w' :: l)).
Proof. done. Qed.

Lemma nonempty_app l1 l2 : nonempty (l1 ++ l2) = (nonempty l1 ++ nonempty l2)%list.
Proof. apply filter_app. Qed.

Lemma nonempty_replicate n : nonempty (replicate n EmptyString) = [].
Proof. induction n as [|n IH]; [done|]. simpl. unfold nonempty in *.
       rewrite filter_cons_False by (intros H; by apply H). done. Qed.

Lemma nonempty_concat ls : nonempty (concat ls) = concat (map nonempty ls).
Proof.
  induction ls as [|l ls IH]; simpl; [done|]. by rewrite nonempty_app, IH.
Qed.

(** The words of single-spaced pieces that hold no whitespace. *)
Lemma words_join ws :
  Forall (fun w => all_chars not_space w = true) ws ->
  words (Py.join " " ws) = nonempty ws.
Proof.
  unfold words.
  induction ws as [|w ws IH]; [done|].
  intros Hws. inversion Hws as [|? ? Hw Hws']; subst.
  destruct ws as [|w' ws].
  - simpl. by rewrite split_by_whole.
  - rewrite join_cons, split_by_app by done.
    rewrite nonempty_app, (IH Hws'). rewrite split_by_whole by done.
    by rewrite <- nonempty_app.
Qed.

Lemma words_lstrip s : words (Py.lstrip s) = words s.
Proof.
  unfold words, nonempty. induction s as [|c s IH]; simpl; [done|].
  destruct (Py.isspace c) eqn:Ec; [|by simpl; rewrite Ec].
  by rewrite filter_cons_False by (intros H; by apply H).
Qed.

Lemma split_by_rstrip s :
  exists n, Py.split_by Py.isspace s
            = (Py.split_by Py.isspace (Py.rstrip s) ++ replicate n EmptyString)%list.
Proof.
  induction s as [|c s [n IH]]; simpl.
  - by exists O.
  - destruct (Py.rstrip s) as [|x r] eqn:Er.
    + destruct (Py.isspace c) eqn:Ec; simpl.
      * exists (S n). by rewrite IH.
      * exists n. rewrite Ec, IH. done.
    + remember (String x r) as t eqn:Et.
      cbn [Py.split_by]. destruct (Py.isspace c); [exists n; by rewrite IH|].
      exists n. rewrite IH.
      pose proof (split_by_nonnil Py.isspace t).
      by destruct (Py.split_by Py.isspace t).
Qed.

Lemma words_rstrip s : words (Py.rstrip s) = words s.
Proof.
  unfold words.
  destruct (split_by_rstrip s) as [n ->].
  by rewrite nonempty_app, nonempty_replicate, app_nil_r.
Qed.

Lemma words_strip s : words (Py.strip s) = words s.
Proof. unfold Py.strip. by rewrite words_rstrip, words_lstrip. Qed.

(** After clean_text the only whitespace left is the single space. *)
Lemma sub_spaces_chars b s :
  all_chars (fun c => not_space c || Ascii.eqb " " c) (Py.sub_spaces b s) = true.
Proof.
  revert b. induction s as [|c s IH]; intros b; simpl; [done|].
  unfold not_space at 1.
  destruct (Py.isspace c) eqn:Ec.
  - destruct b; [done|]. simpl. apply IH.
  - simpl. unfold not_space. rewrite Ec. simpl. apply IH.
Qed.

Lemma split_clean_not_space s :
  Forall (fun w => all_chars not_space w = true) (Py.split " " (clean_text s)).
Proof.
  unfold clean_text, Py.split.
  eapply Forall_impl; [apply split_by_chars, sub_spaces_chars|].
  intros w. apply all_chars_impl. intros c.
  destruct (not_space c), (Ascii.eqb " " c); done.
Qed.

Lemma page_words_not_space page :
  Forall (fun w => all_chars not_space w = true) (page_words page).
Proof. apply split_clean_not_space. Qed.

(** The words of a page are the non-empty entries of its word list. *)
Lemma words_clean_text s :
  words (clean_text s) = nonempty (Py.split " " (clean_text s)).
Proof.
  rewrite <- (join_split " " (clean_text s)) at 1.
  apply words_join, split_clean_not_space.
Qed.

(** The words of a rendered window are its non-empty entries. *)
Lemma words_window ws :
  Forall (fun w => all_chars not_space w = true) ws ->
  words (Py.strip (Py.join " " ws)) = nonempty ws.
Proof. intros H. by rewrite words_strip, words_join. Qed.

End StringFacts.

(** ** The wrapper of a chunk string *)

Section Wrapper.

Lemma strip_prefix_app pre s : strip_prefix pre (pre +:+ s) = Some s.
Proof.
  induction pre as [|a pre IH]; simpl; [by destruct s|].
  by rewrite Ascii.eqb_refl.
Qed.

Lemma after_app c a s :
  all_chars (fun x => negb (Ascii.eqb x c)) a = true ->
  after c (a +:+ String c s) = Some s.
Proof.
  induction a as [|x a IH]; simpl.
  - by rewrite Ascii.eqb_refl.
  - rewrite andb_true_iff, negb_true_iff. intros [-> Ha]. auto.
Qed.

Lemma strip_last_app c s : strip_last c (s +:+ String c EmptyString) = Some s.
Proof.
  induction s as [|x s IH]; simpl.
  - by rewrite Ascii.eqb_refl.
  - rewrite IH. by destruct s.
Qed.

Lemma uint_digits d : all_chars is_digit (NilEmpty.string_of_uint d) = true.
Proof. induction d; simpl; auto. Qed.

Lemma uint_digits_zero d : all_chars is_digit (NilZero.string_of_uint d) = true.
Proof. destruct d; try apply uint_digits. done. Qed.

Lemma str_int_chars n :
  all_chars (fun c => is_digit c || Ascii.eqb c "-") (Py.str_int n) = true.
Proof.
  unfold Py.str_int.
  assert (D : forall d, all_chars (fun c => is_digit c || Ascii.eqb c "-")
                          (NilZero.string_of_uint d) = true).
  { intros d. eapply all_chars_impl; [|apply uint_digits_zero].
    intros c ->. done. }
  destruct (Z.to_int n); simpl; auto.
Qed.

Lemma str_nat_digits (i : nat) : all_chars is_digit (Py.str_int (Z.of_nat i)) = true.
Proof.
  unfold Py.str_int. destruct i; simpl; [done|]. apply uint_digits_zero.
Qed.

Lemma str_int_inj a b : Py.str_int a = Py.str_int b -> a = b.
Proof.
  unfold Py.str_int. intros H.
  assert (N : forall z, Z.to_int z <> Decimal.Pos Decimal.Nil
                        /\ Z.to_int z <> Decimal.Neg Decimal.Nil).
  { intros [|p|p]; simpl; split; try done; intros [= E];
      by apply DecimalPos.Unsigned.to_uint_nonnil in E. }
  apply DecimalZ.to_int_inj.
  assert (S : Some (Z.to_int a) = Some (Z.to_int b)).
  { rewrite <- (NilZero.isi (Z.to_int a)), <- (NilZero.isi (Z.to_int b));
      try apply N. by rewrite H. }
  by injection S.
Qed.

Lemma not_bracket c :
  is_digit c || Ascii.eqb c "-" = true -> negb (Ascii.eqb c "]") = true.
Proof. by destruct c as [[] [] [] [] [] [] [] []]. Qed.

Lemma unwrap_chunk_text ws n :
  unwrap (chunk_text ws n) = Some (Py.strip (Py.join " " ws)).
Proof.
  unfold unwrap, chunk_text.
  set (t := Py.strip (Py.join " " ws)).
  rewrite strip_prefix_app. cbn [mbind option_bind].
  change ("]" +:+ " " +:+ String Py.DQUOTE "" +:+ t +:+ String Py.DQUOTE "")
    with (String "]" (String " " (String Py.DQUOTE "")
                        +:+ (t +:+ String Py.DQUOTE ""))).
  rewrite after_app
    by (eapply all_chars_impl; [apply not_bracket|apply str_int_chars]).
  cbn [mbind option_bind].
  rewrite strip_prefix_app. apply strip_last_app.
Qed.

End Wrapper.

(** ** The windows of the pass *)

Section Windows.

Variable k : nat.
Hypothesis k_pos : (0 < k)%nat.

(** Windows and carry together are the list, in order. *)
Lemma page_windows_concat fuel : forall hn l,
  (length l <= fuel)%nat ->
  (concat (page_windows fuel k hn l).1 ++ (page_windows fuel k hn l).2)%list = l.
Proof.
  induction fuel as [|fuel IH]; intros hn l Hl.
  - destruct l; [done|simpl in Hl; lia].
  - destruct l as [|x l]; [done|].
    cbn [page_windows].
    destruct ((length (x :: l) <? k)%nat && hn); [done|].
    specialize (IH hn (drop k (x :: l))).
    destruct (page_windows fuel k hn (drop k (x :: l))) as [ws c].
    cbn [fst snd concat] in *.
    rewrite <- app_assoc, IH, take_drop; [done|].
    rewrite length_drop. simpl in *. lia.
Qed.

(** Nothing is carried out of the final page. *)
Lemma page_windows_final_carry fuel : forall l,
  (page_windows fuel k false l).2 = [].
Proof.
  induction fuel as [|fuel IH]; intros l; [done|].
  destruct l as [|x l]; [done|].
  cbn [page_windows]. rewrite andb_false_r.
  specialize (IH (drop k (x :: l))).
  by destruct (page_windows fuel k false (drop k (x :: l))).
Qed.

(** A page that has a successor emits full windows only. *)
Lemma page_windows_full fuel : forall l,
  Forall (full k) (page_windows fuel k true l).1.
Proof.
  induction fuel as [|fuel IH]; intros l; [by constructor|].
  destruct l as [|x l]; [by constructor|].
  cbn [page_windows]. rewrite andb_true_r.
  destruct (Nat.ltb_spec (length (x :: l)) k) as [Hlt|Hge]; [by constructor|].
  specialize (IH (drop k (x :: l))).
  destruct (page_windows fuel k true (drop k (x :: l))) as [ws c].
  constructor; [|done]. unfold full. rewrite length_take. lia.
Qed.

(** No window is empty. *)
Lemma page_windows_nonnil fuel : forall hn l,
  Forall (fun w => w <> []) (page_windows fuel k hn l).1.
Proof.
  induction fuel as [|fuel IH]; intros hn l; [by constructor|].
  destruct l as [|x l]; [by constructor|].
  cbn [page_windows].
  destruct ((length (x :: l) <? k)%nat && hn); [by constructor|].
  specialize (IH hn (drop k (x :: l))).
  destruct (page_windows fuel k hn (drop k (x :: l))) as [ws c].
  constructor; [|done]. destruct k; [lia|done].
Qed.

(** The final page emits full windows, but for the last one. *)
Lemma page_windows_final_full fuel : forall l,
  Forall (full k) (removelast (page_windows fuel k false l).1).
Proof.
  induction fuel as [|fuel IH]; intros l; [by constructor|].
  destruct l as [|x l]; [by constructor|].
  cbn [page_windows]. rewrite andb_false_r.
  specialize (IH (drop k (x :: l))).
  destruct (drop k (x :: l)) as [|y l'] eqn:Ed.
  - destruct fuel; by constructor.
  - destruct (page_windows fuel k false (y :: l')) as [ws c].
    cbn [fst] in *. destruct ws as [|w ws]; [by constructor|].
    cbn [removelast]. constructor; [|done].
    unfold full. rewrite length_take.
    assert (length (drop k (x :: l)) = S (length l')) as Hd by by rewrite Ed.
    rewrite length_drop in Hd. lia.
Qed.

(** A short list that has a successor page is carried whole. *)
Lemma page_windows_short fuel l :
  (length l < k)%nat -> (length l <= fuel)%nat ->
  page_windows fuel k true l = ([], l).
Proof.
  intros Hl Hf. destruct fuel as [|fuel].
  - destruct l; [done|simpl in Hf; lia].
  - destruct l as [|x l]; [done|].
    cbn [page_windows]. rewrite andb_true_r.
    by replace (length (x :: l) <? k)%nat with true
      by (symmetry; apply Nat.ltb_lt; lia).
Qed.

(** A final list of at most [k] entries is one window. *)
Lemma page_windows_single fuel l :
  l <> [] -> (length l <= k)%nat -> (length l <= fuel)%nat ->
  page_windows fuel k false l = ([l], []).
Proof.
  intros Hne Hl Hf. destruct l as [|x l]; [done|].
  destruct fuel as [|fuel]; [simpl in Hf; lia|].
  cbn [page_windows]. rewrite andb_false_r.
  rewrite drop_ge, take_ge by lia.
  by destruct fuel.
Qed.

(** A list of at least [k] entries gives a full window first. *)
Lemma page_windows_step fuel hn l :
  (k <= length l)%nat ->
  page_windows (S fuel) k hn l
  = (take k l :: (page_windows fuel k hn (drop k l)).1,
     (page_windows fuel k hn (drop k l)).2).
Proof.
  intros Hl. destruct l as [|x l]; [simpl in Hl; lia|].
  cbn [page_windows].
  replace (length (x :: l) <? k)%nat with false
    by (symmetry; apply Nat.ltb_ge; lia).
  cbn [andb]. by destruct (page_windows fuel k hn (drop k (x :: l))).
Qed.

Implicit Types (tt : list (list string * Z)) (carry : list string).

Lemma emit_cons carry ws n rest :
  emit k carry ((ws, n) :: rest)
  = (map (fun w => (w, n))
       (page_windows (length (carry ++ ws)) k (has_next rest) (carry ++ ws)).1
     ++ emit k (page_windows (length (carry ++ ws)) k (has_next rest)
                  (carry ++ ws)).2 rest)%list.
Proof. cbn [emit]. by destruct (page_windows _ _ _ _). Qed.

(** The windows of [emit] are the carried words and the word lists, in
    order. *)
Lemma emit_concat tt : forall carry,
  tt <> [] ->
  concat (map fst (emit k carry tt)) = (carry ++ concat (map fst tt))%list.
Proof.
  induction tt as [|[ws n] rest IH]; intros carry Hne; [done|].
  cbn [emit map fst concat].
  pose proof (page_windows_concat (length (carry ++ ws)) (has_next rest)
                (carry ++ ws)%list (le_n _)) as Hc.
  pose proof (page_windows_final_carry (length (carry ++ ws)) (carry ++ ws)%list)
    as Hf.
  destruct rest as [|p rest].
  - cbn [has_next] in *.
    destruct (page_windows _ k false _) as [wins c]. cbn [fst snd] in *.
    subst c. rewrite app_nil_r in Hc.
    cbn [emit concat map]. rewrite !app_nil_r.
    rewrite map_map. cbn [fst]. by rewrite map_id.
  - destruct (page_windows _ k _ _) as [wins c]. cbn [fst snd] in *.
    rewrite map_app, concat_app, (IH c) by done.
    rewrite map_map. cbn [fst]. rewrite map_id.
    by rewrite !app_assoc, Hc.
Qed.

(** Every window of [emit] but the last is full. *)
Lemma emit_full tt : forall carry,
  Forall (full k) (removelast (map fst (emit k carry tt))).
Proof.
  induction tt as [|[ws n] rest IH]; intros carry; [by constructor|].
  cbn [emit].
  pose proof (page_windows_full (length (carry ++ ws)) (carry ++ ws)%list) as Hfull.
  pose proof (page_windows_final_full (length (carry ++ ws)) (carry ++ ws)%list)
    as Hlast.
  destruct rest as [|p rest].
  - cbn [has_next]. destruct (page_windows _ k false _) as [wins c].
    cbn [emit fst] in *. rewrite app_nil_r, map_map. cbn [fst].
    by rewrite map_id.
  - cbn [has_next]. destruct (page_windows _ k true _) as [wins c].
    cbn [fst] in *. specialize (IH c).
    rewrite map_app, map_map. cbn [fst]. rewrite map_id.
    destruct (map fst (emit k c (p :: rest))) as [|e es] eqn:Ee.
    + rewrite app_nil_r. clear -Hfull.
      induction Hfull as [|w wins Hw Hws IHw]; [by constructor|].
      destruct wins; [by constructor|]. cbn [removelast].
      constructor; [done|]. apply IHw.
    + rewrite removelast_app by done. by apply Forall_app.
Qed.

(** A document of at most [k] entries is one window, labelled with the
    last page's number. *)
Lemma emit_single tt : forall carry e,
  last tt = Some e ->
  Forall (fun p => p.1 <> []) tt ->
  (length (carry ++ concat (map fst tt)) <= k)%nat ->
  emit k carry tt = [((carry ++ concat (map fst tt))%list, e.2)].
Proof.
  induction tt as [|[ws n] rest IH]; intros carry e Hlast Hall Hlen; [done|].
  inversion Hall as [|? ? Hws Hrest]; subst. cbn [fst] in *.
  cbn [map fst concat] in Hlen |- *.
  rewrite emit_cons.
  destruct rest as [|p rest].
  - cbn [has_next map concat] in *. rewrite app_nil_r in *.
    injection Hlast as <-. rewrite ?app_nil_r.
    rewrite page_windows_single; [done| |done|done].
    intros E. by apply app_eq_nil in E as [_ ->].
  - cbn [has_next].
    assert (0 < length (concat (map fst (p :: rest))))%nat as Hpos.
    { inversion Hrest as [|? ? Hp _]; subst. cbn [map concat].
      rewrite length_app. destruct p.1; [done|simpl; lia]. }
    rewrite page_windows_short
      by (rewrite ?length_app in *; lia).
    cbn [fst snd map app].
    rewrite (IH (carry ++ ws)%list e); [|done|done|].
    + by rewrite <- app_assoc.
    + by rewrite <- app_assoc.
Qed.

End Windows.

(** ** Words of the emitted chunks *)

Section ChunkWords.

Variable k : nat.
Hypothesis k_pos : (0 < k)%nat.

Lemma chunk_words_render w n :
  entries_not_space w -> chunk_words (render (w, n)) = Some (nonempty w).
Proof.
  intros Hw. unfold chunk_words, render. cbn [fst snd].
  rewrite unwrap_chunk_text. cbn [fmap option_fmap option_map].
  by rewrite words_window.
Qed.

Lemma chunks_words_render E :
  Forall (fun e => entries_not_space e.1) E ->
  chunks_words (map render E) = Some (nonempty (concat (map fst E))).
Proof.
  induction E as [|[w n] E IH]; intros HE; [done|].
  inversion HE as [|? ? Hw HE']; subst.
  cbn [map chunks_words]. rewrite chunk_words_render by done.
  cbn [mbind option_bind]. rewrite (IH HE'). cbn [mbind option_bind].
  cbn [map fst concat]. by rewrite nonempty_app.
Qed.

Lemma text_tokens_not_space pages :
  Forall (fun e => entries_not_space e.1) (text_tokens_of pages).
Proof.
  unfold text_tokens_of. apply Forall_map, Forall_forall.
  intros page _. apply page_words_not_space.
Qed.

Lemma page_windows_not_space fuel : forall hn l,
  entries_not_space l ->
  Forall entries_not_space (page_windows fuel k hn l).1
  /\ entries_not_space (page_windows fuel k hn l).2.
Proof.
  induction fuel as [|fuel IH]; intros hn l Hl; [by split; constructor|].
  destruct l as [|x l]; [by split; constructor|].
  cbn [page_windows].
  destruct ((length (x :: l) <? k)%nat && hn); [by split; [constructor|]|].
  destruct (IH hn (drop k (x :: l))) as [H1 H2]; [by apply Forall_drop|].
  destruct (page_windows fuel k hn (drop k (x :: l))) as [ws c].
  split; [|done]. constructor; [|done]. by apply Forall_take.
Qed.

Lemma emit_not_space tt : forall carry,
  entries_not_space carry ->
  Forall (fun e => entries_not_space e.1) tt ->
  Forall (fun e => entries_not_space e.1) (emit k carry tt).
Proof.
  induction tt as [|[ws n] rest IH]; intros carry Hc Htt; [by constructor|].
  inversion Htt as [|? ? Hws Hrest]; subst. cbn [fst] in *.
  rewrite emit_cons.
  destruct (page_windows_not_space (length (carry ++ ws)) (has_next rest)
              (carry ++ ws)%list) as [H1 H2]; [by apply Forall_app|].
  apply Forall_app. split; [|by apply IH].
  apply Forall_map. eapply Forall_impl; [exact H1|]. done.
Qed.

(** The words of the chunks are the words of the pages, in order. *)
Lemma get_chunks_words pages :
  exists chunks,
    get_chunks pages (Z.of_nat k) = Ok chunks
    /\ chunks_words chunks
       = Some (concat (map (fun page => words (clean_text (extract_text page)))
                           pages)).
Proof.
  eexists. split; [by apply get_chunks_emit|].
  rewrite chunks_words_render
    by (apply emit_not_space; [constructor|apply text_tokens_not_space]).
  f_equal. destruct pages as [|page pages]; [done|].
  rewrite emit_concat by done. cbn [app].
  rewrite nonempty_concat. unfold text_tokens_of. rewrite !map_map.
  f_equal. apply map_ext. intros p. cbn [fst].
  symmetry. apply words_clean_text.
Qed.

End ChunkWords.

(** C1: for every list of pages and every positive max_words, the words of
    the chunks that get_chunks emits (each chunk string read back through
    its wrapper), concatenated in emission order, are exactly the words of
    the normalized page texts concatenated in page order: none is dropped,
    duplicated or reordered. *)
Theorem get_chunks_preserves_words (pages : list PageObject) (max_words : Z) :
  0 < max_words ->
  exists chunks,
    get_chunks pages max_words = Ok chunks
    /\ chunks_words chunks
       = Some (concat (map (fun page => words (clean_text (extract_text page)))
                           pages)).
Proof.
  intros Hpos. rewrite <- (Z2Nat.id max_words) by lia.
  apply get_chunks_words. lia.
Qed.

Lemma get_chunks_preserves_words_witness :
  0 < 2
  /\ exists chunks,
       get_chunks [mk_page 1 " a b"; mk_page 2 "c d e "] 2 = Ok chunks
       /\ chunks_words chunks = Some ["a"; "b"; "c"; "d"; "e"].
Proof.
  split; [lia|].
  apply (get_chunks_preserves_words [mk_page 1 " a b"; mk_page 2 "c d e "] 2).
  lia.
Defined.

(** ** Tidy texts have no empty entry *)

Section Tidy.

Lemma isspace_replace_eq c :
  Py.isspace (if Ascii.eqb c Py.LF then Py.SP else c) = Py.isspace c.
Proof. destruct (Ascii.eqb_spec c Py.LF) as [->|]; done. Qed.

Lemma replace_starts s : starts_ws (Py.replace Py.LF Py.SP s) = starts_ws s.
Proof. destruct s as [|c s]; [done|]. apply isspace_replace_eq. Qed.

Lemma replace_ends s : ends_ws (Py.replace Py.LF Py.SP s) = ends_ws s.
Proof.
  induction s as [|c s IH]; [done|]. cbn [Py.replace].
  destruct s as [|c' s]; [apply isspace_replace_eq|]. exact IH.
Qed.

(** Inside a run or not, a text that ends with a character that is no
    whitespace is split into entries none of which is empty, but for the
    first one when the text starts with whitespace outside a run. *)
Lemma sub_spaces_no_empty s :
  s <> EmptyString -> ends_ws s = false ->
  (EmptyString ∉ Py.split " " (Py.sub_spaces true s))
  /\ (starts_ws s = false ->
      EmptyString ∉ Py.split " " (Py.sub_spaces false s)).
Proof.
  unfold Py.split.
  induction s as [|c s IH]; intros Hne Hend; [done|].
  destruct (Py.isspace c) eqn:Ec.
  - assert (Hs : s <> EmptyString) by (intros ->; simpl in Hend; congruence).
    assert (He : ends_ws s = false) by (destruct s; [done|exact Hend]).
    destruct (IH Hs He) as [IHa _]. split.
    + cbn [Py.sub_spaces]. by rewrite Ec.
    + cbn [starts_ws]. congruence.
  - assert (Hc : Ascii.eqb " " c = false).
    { apply Ascii.eqb_neq. intros <-. done. }
    assert (Hcons : forall b,
      EmptyString ∉ Py.split_by (Ascii.eqb " ") (Py.sub_spaces b (String c s))).
    { intros b. cbn [Py.sub_spaces]. rewrite Ec.
      cbn [Py.split_by]. rewrite Hc.
      destruct s as [|c' s'] eqn:Es.
      - cbn. intros H. apply list_elem_of_singleton in H. done.
      - rewrite <- Es in *.
        assert (Hs : s <> EmptyString) by (rewrite Es; done).
        assert (He : ends_ws s = false) by (rewrite Es in Hend |- *; exact Hend).
        destruct (IH Hs He) as [IHa IHb].
        destruct (starts_ws s) eqn:Est.
        + rewrite Es in Est |- *. cbn [starts_ws] in Est.
          cbn [Py.sub_spaces]. rewrite Est. cbn [Py.split_by Py.SP].
          rewrite Ascii.eqb_refl.
          rewrite Es in IHa. cbn [Py.sub_spaces] in IHa. rewrite Est in IHa.
          intros H. apply elem_of_cons in H as [H|H]; [done|by apply IHa].
        + specialize (IHb eq_refl).
          destruct (Py.split_by (Ascii.eqb " ") (Py.sub_spaces false s))
            as [|w ws]; [intros H; apply list_elem_of_singleton in H; done|].
          intros H. apply elem_of_cons in H as [H|H]; [done|].
          apply IHb. by right. }
    split; [apply Hcons|intros _; apply Hcons].
Qed.

(** A tidy page text gives a word list without an empty entry. *)
Lemma tidy_page_words page :
  tidy (extract_text page) -> EmptyString ∉ page_words page.
Proof.
  intros (Hne & Hst & Hen). unfold page_words, clean_text.
  apply sub_spaces_no_empty.
  - destruct (extract_text page); done.
  - by rewrite replace_ends.
  - by rewrite replace_starts.
Qed.

End Tidy.

(** ** The windows of a document *)

Section Shape.

Variable k : nat.
Hypothesis k_pos : (0 < k)%nat.

Lemma page_windows_fuel hn fuel : forall fuel' l,
  (length l <= fuel)%nat -> (length l <= fuel')%nat ->
  page_windows fuel k hn l = page_windows fuel' k hn l.
Proof.
  induction fuel as [|fuel IH]; intros fuel' l H H'.
  - destruct l; [|simpl in H; lia]. by destruct fuel'.
  - destruct l as [|x l]; [by destruct fuel'|].
    destruct fuel' as [|fuel']; [simpl in H'; lia|].
    cbn [page_windows].
    destruct ((length (x :: l) <? k)%nat && hn); [done|].
    rewrite (IH fuel'); [done| |]; rewrite length_drop; simpl in *; lia.
Qed.

Lemma page_windows_bounded fuel : forall hn l,
  Forall (fun w => (length w <= k)%nat) (page_windows fuel k hn l).1.
Proof.
  induction fuel as [|fuel IH]; intros hn l; [by constructor|].
  destruct l as [|x l]; [by constructor|].
  cbn [page_windows].
  destruct ((length (x :: l) <? k)%nat && hn); [by constructor|].
  specialize (IH hn (drop k (x :: l))).
  destruct (page_windows fuel k hn (drop k (x :: l))) as [ws c].
  constructor; [|done]. rewrite length_take. lia.
Qed.


(** The windows of [emit]: none is empty, none has more than [k] entries. *)
Lemma emit_sizes tt : forall carry,
  Forall (fun w => w <> [] /\ (length w <= k)%nat) (map fst (emit k carry tt)).
Proof.
  induction tt as [|[ws n] rest IH]; intros carry; [by constructor|].
  rewrite emit_cons, map_app, map_map. cbn [fst]. rewrite map_id.
  apply Forall_app. split; [|apply IH].
  pose proof (page_windows_nonnil k k_pos (length (carry ++ ws)) (has_next rest)
                (carry ++ ws)%list) as H1.
  pose proof (page_windows_bounded (length (carry ++ ws)) (has_next rest)
                (carry ++ ws)%list) as H2.
  apply Forall_and. by split.
Qed.

Lemma page_windows_step_len hn l :
  (k <= length l)%nat ->
  page_windows (length l) k hn l
  = (take k l :: (page_windows (length (drop k l)) k hn (drop k l)).1,
     (page_windows (length (drop k l)) k hn (drop k l)).2).
Proof.
  intros Hl. destruct (length l) as [|f] eqn:E; [lia|].
  rewrite page_windows_step by lia.
  rewrite (page_windows_fuel hn f (length (drop k l)));
    [done| |done]. rewrite length_drop. lia.
Qed.

(** A list is cut into windows in one way only. *)
Lemma windows_unique ws : forall l,
  concat ws = l ->
  Forall (fun w => w <> [] /\ (length w <= k)%nat) ws ->
  Forall (full k) (removelast ws) ->
  ws = windows_of k l.
Proof.
  unfold windows_of.
  induction ws as [|w ws IH]; intros l Hl Hs Hf.
  - by subst l.
  - inversion Hs as [|? ? [Hw Hwk] Hs']; subst.
    change (concat (w :: ws)) with (w ++ concat ws)%list.
    destruct ws as [|w2 ws].
    + cbn [concat]. rewrite app_nil_r.
      by rewrite page_windows_single.
    + change (removelast (w :: w2 :: ws))
        with (w :: removelast (w2 :: ws)) in Hf.
      inversion Hf as [|? ? Hfull Hf']; subst.
      unfold full in Hfull.
      remember (concat (w2 :: ws)) as r eqn:Er.
      rewrite page_windows_step_len by (rewrite length_app; lia).
      cbn [fst]. rewrite take_app_length', drop_app_length' by done.
      f_equal. by apply IH.
Qed.

Lemma windows_count fuel : forall l,
  (length l <= fuel)%nat ->
  length (page_windows fuel k false l).1 = ((length l + k - 1) / k)%nat.
Proof.
  induction fuel as [|fuel IH]; intros l Hl.
  - destruct l; [|simpl in Hl; lia]. simpl.
    symmetry. apply Nat.div_small. lia.
  - destruct l as [|x l].
    { simpl. symmetry. apply Nat.div_small. lia. }
    cbn [page_windows]. rewrite andb_false_r.
    specialize (IH (drop k (x :: l))).
    destruct (page_windows fuel k false (drop k (x :: l))) as [ws c].
    cbn [fst length] in *. rewrite IH by (rewrite length_drop; simpl; lia).
    rewrite length_drop. cbn [length].
    replace (S (length l) + k - 1)%nat with (length l + 1 * k)%nat by lia.
    rewrite Nat.div_add by lia.
    destruct (Nat.le_gt_cases (S (length l)) k) as [Hle|Hgt].
    + replace (S (length l) - k + k - 1)%nat with (k - 1)%nat by lia.
      rewrite !Nat.div_small by lia. done.
    + replace (S (length l) - k + k - 1)%nat with (length l) by lia. lia.
Qed.

Lemma render_zip E :
  map render E
  = zip_with (fun w n => (chunk_text w n, n)) (map fst E) (map snd E).
Proof. induction E as [|[w n] E IH]; [done|]. cbn. by rewrite <- IH. Qed.

Lemma emit_windows tt :
  map fst (emit k [] tt) = windows_of k (concat (map fst tt)).
Proof.
  destruct tt as [|e tt]; [done|].
  apply windows_unique.
  - by rewrite emit_concat.
  - apply emit_sizes.
  - by apply emit_full.
Qed.

Lemma text_tokens_entries pages :
  concat (map fst (text_tokens_of pages)) = all_entries pages.
Proof. unfold text_tokens_of, all_entries. by rewrite map_map. Qed.




(** The window at position [i] holds the entries from position [i * k]
    on. *)
Lemma page_windows_lookup fuel : forall l i w,
  (length l <= fuel)%nat ->
  (page_windows fuel k false l).1 !! i = Some w ->
  w = take k (drop (i * k) l).
Proof.
  induction fuel as [|fuel IH]; intros l i w Hl; [done|].
  destruct l as [|x l]; [done|].
  cbn [page_windows]. rewrite andb_false_r.
  specialize (IH (drop k (x :: l))).
  destruct (page_windows fuel k false (drop k (x :: l))) as [ws c].
  cbn [fst] in *. destruct i as [|i].
  - by intros [= <-].
  - intros Hi. rewrite (IH i w); [|rewrite length_drop; simpl in *; lia|exact Hi].
    by rewrite drop_drop.
Qed.

Lemma windows_of_lookup l i w :
  windows_of k l !! i = Some w -> w = take k (drop (i * k) l).
Proof. by apply page_windows_lookup. Qed.

End Shape.

(** ** Chunk sizes *)

Lemma Forall_removelast_lookup {A} (P : A -> Prop) (l : list A) i x :
  Forall P (removelast l) -> l !! i = Some x -> (S i < length l)%nat -> P x.
Proof.
  rewrite removelast_firstn_len. intros HP Hi Hlen.
  apply (Forall_lookup_1 P _ i x HP).
  rewrite lookup_take_lt by lia. exact Hi.
Qed.

Lemma emit_no_empty k tt :
  (0 < k)%nat ->
  Forall (fun e => EmptyString ∉ e.1) tt ->
  Forall (fun e => EmptyString ∉ e.1) (emit k [] tt).
Proof.
  intros Hk Htt. destruct tt as [|e tt]; [by constructor|].
  assert (Forall (fun w : string => w <> EmptyString)
            (concat (map fst (emit k [] (e :: tt))))) as H.
  { rewrite emit_concat by done. cbn [app].
    apply Forall_concat, Forall_map.
    eapply Forall_impl; [exact Htt|].
    intros [ws n] Hws. cbn [fst] in *. apply Forall_forall.
    intros w Hw ->. by apply Hws. }
  apply Forall_concat in H. rewrite Forall_map in H.
  eapply Forall_impl; [exact H|].
  intros [ws n] Hws. cbn [fst] in *. intros Hin.
  rewrite Forall_forall in Hws. by apply (Hws EmptyString).
Qed.

Lemma nonempty_id ws : EmptyString ∉ ws -> nonempty ws = ws.
Proof.
  intros H. unfold nonempty. induction ws as [|w ws IH]; [done|].
  apply not_elem_of_cons in H as [Hw Hws].
  rewrite filter_cons_True by done. by rewrite IH.
Qed.

(** C2 as stated fails: the first of three chunks holds one word, with
    max_words = 2, two pages and four words in all. *)
Lemma short_chunk_before_the_last :
  length leading_space_pages = 2%nat
  /\ concat (map (fun page => words (clean_text (extract_text page)))
                 leading_space_pages) = ["a"; "b"; "c"; "d"]
  /\ get_chunks leading_space_pages 2
     = Ok [("[Page no. 1] " +:+ String Py.DQUOTE "a" +:+ String Py.DQUOTE "", 1);
           ("[Page no. 1] " +:+ String Py.DQUOTE "b c" +:+ String Py.DQUOTE "", 1);
           ("[Page no. 2] " +:+ String Py.DQUOTE "d" +:+ String Py.DQUOTE "", 2)]
  /\ chunk_words
       ("[Page no. 1] " +:+ String Py.DQUOTE "a" +:+ String Py.DQUOTE "", 1)
     = Some ["a"].
Proof. repeat split; vm_compute; reflexivity. Qed.

(** C2, amended: for a positive max_words, the chunk at position [i] of
    the output, unless it is the last one, is built from a window of
    exactly max_words entries of the page word lists: the entries at the
    positions [i * max_words] to [(i + 1) * max_words - 1] of the word
    lists put one after the other in page order, so that entries carried
    over from a page count with the next one.  The words of the chunk are
    the non-empty entries of that window; they are max_words in number
    when every page text is tidy (not empty, and without whitespace at its
    start and at its end). *)
Theorem chunks_full_but_last (pages : list PageObject) (max_words : Z) :
  0 < max_words ->
  exists chunks,
    get_chunks pages max_words = Ok chunks
    /\ forall i chunk,
         chunks !! i = Some chunk -> (S i < length chunks)%nat ->
         exists window,
           window = take (Z.to_nat max_words)
                         (drop (i * Z.to_nat max_words) (all_entries pages))
           /\ length window = Z.to_nat max_words
           /\ chunk.1 = chunk_text window chunk.2
           /\ chunk_words chunk = Some (nonempty window)
           /\ (Forall (fun page => tidy (extract_text page)) pages ->
               chunk_words chunk = Some window).
Proof.
  intros Hpos. set (k := Z.to_nat max_words).
  assert (Hk : (0 < k)%nat) by lia.
  rewrite <- (Z2Nat.id max_words) by lia. fold k.
  eexists. split; [by apply get_chunks_emit|].
  intros i chunk Hi Hlen. rewrite length_map in Hlen.
  rewrite list_lookup_fmap in Hi.
  destruct (emit k [] (text_tokens_of pages) !! i) as [[w n]|] eqn:Ei; [|done].
  injection Hi as <-. exists w.
  assert (Hw : entries_not_space w).
  { assert (Forall (fun e : list string * Z => entries_not_space e.1)
              (emit k [] (text_tokens_of pages))) as HE
      by (apply emit_not_space; [constructor|apply text_tokens_not_space]).
    by apply (Forall_lookup_1 _ _ _ _ HE Ei). }
  split; [|repeat split].
  - apply (windows_of_lookup k Hk).
    rewrite <- text_tokens_entries, <- (emit_windows _ Hk).
    by rewrite list_lookup_fmap, Ei.
  - eapply (Forall_removelast_lookup (full k) _ i); [apply (emit_full k Hk)| |].
    + rewrite list_lookup_fmap, Ei. done.
    + by rewrite length_map.
  - by apply chunk_words_render.
  - intros Hpages. rewrite chunk_words_render by done. f_equal.
    apply nonempty_id.
    assert (Forall (fun e : list string * Z => EmptyString ∉ e.1)
              (emit k [] (text_tokens_of pages))) as HE.
    { apply emit_no_empty; [done|]. unfold text_tokens_of.
      apply Forall_map. eapply Forall_impl; [exact Hpages|].
      intros page. apply tidy_page_words. }
    by apply (Forall_lookup_1 _ _ _ _ HE Ei).
Qed.

Lemma chunks_full_but_last_witness :
  0 < 2
  /\ Forall (fun page => tidy (extract_text page)) tidy_pages
  /\ exists chunks,
       get_chunks tidy_pages 2 = Ok chunks
       /\ length chunks = 3%nat
       /\ forall i chunk,
            chunks !! i = Some chunk -> (S i < length chunks)%nat ->
            exists window,
              window = take (Z.to_nat 2)
                            (drop (i * Z.to_nat 2) (all_entries tidy_pages))
              /\ length window = Z.to_nat 2
              /\ chunk_words chunk = Some window.
Proof.
  assert (T : Forall (fun page => tidy (extract_text page)) tidy_pages)
    by (repeat constructor; done).
  split; [lia|]. split; [exact T|].
  destruct (chunks_full_but_last tidy_pages 2) as (chunks & E & H); [lia|].
  exists chunks. split; [exact E|]. split.
  - assert (E' : get_chunks tidy_pages 2
                 = Ok [(labelled "1" "a b", 1); (labelled "2" "c d", 2);
                       (labelled "2" "e", 2)]) by (vm_compute; reflexivity).
    rewrite E' in E. by injection E as <-.
  - intros i chunk Hi Hl.
    destruct (H i chunk Hi Hl) as (w & Ew & Hlen & _ & _ & Ht).
    exists w. split; [exact Ew|]. split; [exact Hlen|exact (Ht T)].
Defined.

(** ** Pages without words, and whitespace at the ends of a page *)

Section Whitespace.

Lemma isspace_replace c :
  Py.isspace c = true ->
  Py.isspace (if Ascii.eqb c Py.LF then Py.SP else c) = true.
Proof. by destruct (Ascii.eqb c Py.LF). Qed.

Lemma replace_all_space s :
  all_chars Py.isspace s = true ->
  all_chars Py.isspace (Py.replace Py.LF Py.SP s) = true.
Proof.
  induction s as [|c s IH]; simpl; [done|].
  rewrite !andb_true_iff. intros [Hc Hs]. split; [|auto].
  by apply isspace_replace.
Qed.

Lemma replace_app old new s t :
  Py.replace old new (s +:+ t) = Py.replace old new s +:+ Py.replace old new t.
Proof. induction s as [|c s IH]; simpl; [done|]. by rewrite IH. Qed.

Lemma sub_spaces_run s :
  all_chars Py.isspace s = true -> Py.sub_spaces true s = EmptyString.
Proof.
  induction s as [|c s IH]; simpl; [done|].
  rewrite andb_true_iff. intros [-> Hs]. auto.
Qed.

(** A text of whitespace only, and not empty, is cleaned to one space. *)
Lemma clean_text_blank s :
  s <> EmptyString -> all_chars Py.isspace s = true -> clean_text s = " ".
Proof.
  intros Hne Hs. unfold clean_text.
  apply replace_all_space in Hs.
  destruct s as [|c s]; [done|]. simpl in *.
  apply andb_true_iff in Hs as [-> Hs]. by rewrite sub_spaces_run.
Qed.

(** The word list of a page without words: one empty entry for the empty
    text, two for a text of whitespace. *)
Lemma blank_page_words page :
  all_chars Py.isspace (extract_text page) = true ->
  page_words page = [EmptyString]
  \/ page_words page = [EmptyString; EmptyString].
Proof.
  intros Hs. unfold page_words.
  destruct (extract_text page) as [|c s] eqn:E; [by left|].
  right. by rewrite clean_text_blank.
Qed.

Lemma blank_words s : all_chars Py.isspace s = true -> words (clean_text s) = [].
Proof.
  intros Hs. destruct s as [|c s]; [done|]. by rewrite clean_text_blank.
Qed.

(** Whitespace at the start of a text leaves an empty first entry. *)
Lemma split_clean_leading c s :
  Py.isspace c = true ->
  head (Py.split " " (clean_text (String c s))) = Some EmptyString.
Proof.
  intros Hc. unfold clean_text. simpl.
  by rewrite (isspace_replace c Hc).
Qed.

Lemma sub_spaces_trailing c : Py.isspace c = true -> forall s b,
  (exists r, Py.sub_spaces b (s +:+ String c EmptyString) = r +:+ " ")
  \/ (b = true /\ Py.sub_spaces b (s +:+ String c EmptyString) = EmptyString).
Proof.
  intros Hc. induction s as [|x s IH]; intros b; simpl.
  - rewrite Hc. destruct b; [by right|left; by exists EmptyString].
  - destruct (Py.isspace x).
    + destruct b; [apply IH|]. left.
      destruct (IH true) as [[r ->]|[_ ->]].
      * by exists (String Py.SP r).
      * by exists EmptyString.
    + left. destruct (IH false) as [[r ->]|[? _]]; [|done].
      by exists (String x r).
Qed.

(** Whitespace at the end of a text leaves an empty last entry. *)
Lemma split_clean_trailing s c :
  Py.isspace c = true ->
  last (Py.split " " (clean_text (s +:+ String c EmptyString))) = Some EmptyString.
Proof.
  intros Hc. unfold clean_text. rewrite replace_app. cbn [Py.replace].
  destruct (sub_spaces_trailing _ (isspace_replace c Hc)
              (Py.replace Py.LF Py.SP s) false) as [[r ->]|[? _]]; [|done].
  unfold Py.split. rewrite split_by_app by done. apply last_snoc.
Qed.

End Whitespace.

(** C10: clean_text turns a non-empty text of whitespace into one space;
    splitting a cleaned text at single spaces never gives the empty list,
    the empty text gives the one entry [""], and whitespace at the start
    or at the end of a page text leaves an empty string as the first or the
    last entry of the page's word list. *)
Theorem clean_text_keeps_edge_spaces :
  (forall s, s <> EmptyString -> all_chars Py.isspace s = true ->
             clean_text s = " ")
  /\ (forall s, Py.split " " (clean_text s) <> [])
  /\ (forall n, page_words (mk_page n EmptyString) = [EmptyString])
  /\ (forall n c s, Py.isspace c = true ->
                    head (page_words (mk_page n (String c s))) = Some EmptyString)
  /\ (forall n s c, Py.isspace c = true ->
                    last (page_words (mk_page n (s +:+ String c EmptyString)))
                    = Some EmptyString).
Proof.
  split; [exact clean_text_blank|].
  split; [intros s; apply split_by_nonnil|].
  split; [done|].
  split; [intros n c s; apply split_clean_leading|].
  intros n s c. apply split_clean_trailing.
Qed.

Lemma clean_text_keeps_edge_spaces_witness :
  clean_text (String Py.LF (String " " (String "009" EmptyString))) = " "
  /\ head (page_words (mk_page 1 (String Py.LF "a b"))) = Some EmptyString
  /\ last (page_words (mk_page 1 ("a b" +:+ String Py.LF EmptyString)))
     = Some EmptyString.
Proof.
  pose proof clean_text_keeps_edge_spaces as (H1 & _ & _ & H4 & H5).
  split; [by apply H1|]. split; [by apply H4|by apply (H5 1 "a b")].
Defined.

(** C3 as stated fails: an empty page put before a page changes the chunks
    of that page (its empty entry is carried and fills a place in the first
    window), and an empty page that is the last one emits a chunk of its
    own. *)
Lemma blank_page_changes_chunks :
  get_chunks [mk_page 2 "a b c"] 2
  = Ok [(labelled "2" "a b", 2); (labelled "2" "c", 2)]
  /\ get_chunks [mk_page 1 ""; mk_page 2 "a b c"] 2
     = Ok [(labelled "2" "a", 2); (labelled "2" "b c", 2)]
  /\ get_chunks [] 150 = Ok []
  /\ get_chunks [mk_page 1 ""] 150 = Ok [(labelled "1" "", 1)].
Proof. repeat split; vm_compute; reflexivity. Qed.

(** C3, amended: a page whose text has no word (empty, or whitespace only)
    still has a word list that is not empty: one or two empty strings.
    They are windowed, carried and emitted like other entries, so chunk
    boundaries may move and a chunk may be emitted for the page; what
    putting such a page anywhere into the list leaves unchanged is the
    sequence of words of the emitted chunks. *)
Theorem blank_page_adds_no_words
    (before after : list PageObject) (blank : PageObject) (max_words : Z) :
  0 < max_words ->
  all_chars Py.isspace (extract_text blank) = true ->
  (page_words blank = [EmptyString]
   \/ page_words blank = [EmptyString; EmptyString])
  /\ exists with_blank without ws,
       get_chunks (before ++ blank :: after) max_words = Ok with_blank
       /\ get_chunks (before ++ after) max_words = Ok without
       /\ chunks_words with_blank = Some ws
       /\ chunks_words without = Some ws.
Proof.
  intros Hpos Hblank. split; [by apply blank_page_words|].
  assert (Hk : (0 < Z.to_nat max_words)%nat) by lia.
  destruct (get_chunks_words _ Hk (before ++ blank :: after)) as (c1 & H1 & W1).
  destruct (get_chunks_words _ Hk (before ++ after)) as (c2 & H2 & W2).
  rewrite Z2Nat.id in H1, H2 by lia.
  exists c1, c2. eexists. repeat split; [done|done|exact W1|].
  rewrite W2. f_equal. rewrite !map_app, !concat_app. cbn [map concat].
  by rewrite (blank_words _ Hblank).
Qed.

Lemma blank_page_adds_no_words_witness :
  0 < 2
  /\ all_chars Py.isspace (extract_text (mk_page 1 " ")) = true
  /\ (page_words (mk_page 1 " ") = [EmptyString]
      \/ page_words (mk_page 1 " ") = [EmptyString; EmptyString])
  /\ exists with_blank without ws,
       get_chunks ([] ++ mk_page 1 " " :: [mk_page 2 "a b c"]) 2 = Ok with_blank
       /\ get_chunks ([] ++ [mk_page 2 "a b c"]) 2 = Ok without
       /\ chunks_words with_blank = Some ws
       /\ chunks_words without = Some ws.
Proof.
  split; [lia|]. split; [reflexivity|].
  apply (blank_page_adds_no_words [] [mk_page 2 "a b c"] (mk_page 1 " ") 2);
    [lia|reflexivity].
Defined.

(** C4 as stated fails: a document without pages gives no chunk, and a
    single page of two words whose text ends with a line break gives two
    chunks with max_words = 2, the second one with an empty text. *)
Lemma not_one_chunk :
  get_chunks [] 150 = Ok []
  /\ words (clean_text ("a b" +:+ String Py.LF "")) = ["a"; "b"]
  /\ get_chunks [mk_page 0 ("a b" +:+ String Py.LF "")] 2
     = Ok [(labelled "0" "a b", 0); (labelled "0" "", 0)].
Proof. repeat split; vm_compute; reflexivity. Qed.

(** C4, amended: for every document of at least one page whose word lists
    (the entries of the split at single spaces, empty strings counted) have
    at most max_words entries in all, get_chunks emits exactly one chunk; it
    is built from all entries in page order, so it holds every word of the
    document, and it is labelled with the page number of the last page. *)
Theorem one_chunk_for_small_document
    (pages : list PageObject) (last_page : PageObject) (max_words : Z) :
  last pages = Some last_page ->
  Z.of_nat (length (concat (map page_words pages))) <= max_words ->
  get_chunks pages max_words
  = Ok [(chunk_text (concat (map page_words pages)) (page_number last_page),
         page_number last_page)]
  /\ chunks_words
       [(chunk_text (concat (map page_words pages)) (page_number last_page),
         page_number last_page)]
     = Some (concat (map (fun page => words (clean_text (extract_text page)))
                         pages)).
Proof.
  intros Hlast Hlen.
  assert (Hne : Forall (fun p : list string * Z => p.1 <> [])
                  (text_tokens_of pages)).
  { apply Forall_map, Forall_forall. intros p _. apply split_by_nonnil. }
  assert (Hcat : concat (map fst (text_tokens_of pages))
                 = concat (map page_words pages)).
  { unfold text_tokens_of. by rewrite map_map. }
  assert (Hpos : 0 < max_words).
  { destruct pages as [|p pages]; [done|].
    cbn [map concat] in Hlen. rewrite length_app in Hlen.
    pose proof (split_by_nonnil (Ascii.eqb " ") (clean_text (extract_text p))).
    unfold page_words, Py.split in Hlen.
    destruct (Py.split_by _ _); [done|]. simpl in Hlen. lia. }
  assert (Hk : (0 < Z.to_nat max_words)%nat) by lia.
  assert (Hget : get_chunks pages max_words
    = Ok [(chunk_text (concat (map page_words pages)) (page_number last_page),
           page_number last_page)]).
  { rewrite <- (Z2Nat.id max_words) at 1 by lia.
    rewrite get_chunks_emit by done.
    rewrite (emit_single _ Hk _ [] (page_words last_page, page_number last_page)).
    - cbn [app map snd]. by rewrite Hcat.
    - unfold text_tokens_of. by rewrite fmap_last, Hlast.
    - done.
    - cbn [app]. rewrite Hcat. lia. }
  split; [done|].
  destruct (get_chunks_words _ Hk pages) as (c & Hc & Wc).
  rewrite Z2Nat.id in Hc by lia. rewrite Hget in Hc.
  injection Hc as <-. exact Wc.
Qed.

Lemma one_chunk_for_small_document_witness :
  last [mk_page 1 "a b"; mk_page 2 "c "] = Some (mk_page 2 "c ")
  /\ Z.of_nat (length (concat (map page_words [mk_page 1 "a b"; mk_page 2 "c "])))
     <= 4
  /\ get_chunks [mk_page 1 "a b"; mk_page 2 "c "] 4
     = Ok [(labelled "2" "a b c", 2)]
  /\ chunks_words [(labelled "2" "a b c", 2)] = Some ["a"; "b"; "c"].
Proof.
  split; [reflexivity|]. split; [vm_compute; discriminate|].
  apply (one_chunk_for_small_document
           [mk_page 1 "a b"; mk_page 2 "c "] (mk_page 2 "c ") 4);
    [reflexivity|vm_compute; discriminate].
Defined.

(** ** A cleaned text is single-spaced *)

Section CleanText.

Lemma sub_spaces_single_spaced s : forall b,
  single_spaced b (Py.sub_spaces b s) = true.
Proof.
  induction s as [|c s IH]; intros b; [done|].
  cbn [Py.sub_spaces]. destruct (Py.isspace c) eqn:Ec.
  - destruct b; [apply IH|].
    cbn [single_spaced]. change (Py.isspace Py.SP) with true.
    cbn. apply IH.
  - cbn [single_spaced]. rewrite Ec. apply IH.
Qed.

Lemma single_spaced_sub_spaces s : forall b,
  single_spaced b s = true -> Py.sub_spaces b s = s.
Proof.
  induction s as [|c s IH]; intros b H; [done|].
  cbn [single_spaced Py.sub_spaces] in *. destruct (Py.isspace c) eqn:Ec.
  - apply andb_true_iff in H as [H Hs]. apply andb_true_iff in H as [Hc Hb].
    apply Ascii.eqb_eq in Hc as ->. apply negb_true_iff in Hb as ->.
    by rewrite (IH true Hs).
  - by rewrite (IH false H).
Qed.

Lemma single_spaced_replace s : forall b,
  single_spaced b s = true -> Py.replace Py.LF Py.SP s = s.
Proof.
  induction s as [|c s IH]; intros b H; [done|].
  cbn [single_spaced Py.replace] in *. destruct (Py.isspace c) eqn:Ec.
  - apply andb_true_iff in H as [H Hs]. apply andb_true_iff in H as [Hc _].
    apply Ascii.eqb_eq in Hc as ->. by rewrite (IH true Hs).
  - destruct (Ascii.eqb_spec c Py.LF) as [->|_]; [done|].
    by rewrite (IH false H).
Qed.

(** Replacing line breaks changes no piece between whitespace. *)
Lemma split_replace s :
  Py.split_by Py.isspace (Py.replace Py.LF Py.SP s) = Py.split_by Py.isspace s.
Proof.
  induction s as [|c s IH]; [done|].
  cbn [Py.replace Py.split_by]. rewrite isspace_replace_eq, IH.
  destruct (Ascii.eqb_spec c Py.LF) as [->|_]; done.
Qed.

(** Collapsing runs of whitespace keeps the first piece, outside a run, and
    the non-empty pieces. *)
Lemma split_sub_spaces s :
  nonempty (Py.split_by Py.isspace (Py.sub_spaces true s))
  = nonempty (Py.split_by Py.isspace s)
  /\ exists w ws w' ws',
       Py.split_by Py.isspace (Py.sub_spaces false s) = w :: ws
       /\ Py.split_by Py.isspace s = w' :: ws'
       /\ w = w' /\ nonempty ws = nonempty ws'.
Proof.
  induction s as [|c s IH].
  { split; [done|]. by exists EmptyString, [], EmptyString, []. }
  destruct IH as (IHt & w & ws & w' & ws' & E1 & E2 & -> & Hn).
  - cbn [Py.sub_spaces]. destruct (Py.isspace c) eqn:Ec.
    + split.
      * rewrite IHt. cbn [Py.split_by]. rewrite Ec. unfold nonempty.
        by rewrite (filter_cons_False _ EmptyString) by (intros H; by apply H).
      * cbn [Py.split_by]. change (Py.isspace Py.SP) with true. rewrite Ec.
        cbn iota. do 4 eexists. repeat split. exact IHt.
    + assert (exists v vs v' vs',
        Py.split_by Py.isspace (String c (Py.sub_spaces false s)) = v :: vs
        /\ Py.split_by Py.isspace (String c s) = v' :: vs'
        /\ v = v' /\ nonempty vs = nonempty vs') as H.
      { exists (String c w'), ws, (String c w'), ws'.
        cbn [Py.split_by]. by rewrite Ec, E1, E2. }
      split; [|exact H].
      destruct H as (v & vs & v' & vs' & F1 & F2 & -> & Hvs).
      rewrite F1, F2. unfold nonempty in *.
      destruct (decide (v' = EmptyString)).
      * by rewrite !filter_cons_False by (intros ?; done).
      * rewrite !filter_cons_True by done. by f_equal.
Qed.

Lemma clean_text_twice s : clean_text (clean_text s) = clean_text s.
Proof.
  unfold clean_text at 1.
  pose proof (sub_spaces_single_spaced (Py.replace Py.LF Py.SP s) false) as H.
  fold (clean_text s) in H.
  by rewrite (single_spaced_replace _ _ H), (single_spaced_sub_spaces _ _ H).
Qed.

End CleanText.

(** ** The scenario of 170 and 80 words *)

Section Edges.

Lemma nonempty_cons_empty l : nonempty (EmptyString :: l) = nonempty l.
Proof.
  unfold nonempty. by rewrite filter_cons_False by (intros H; by apply H).
Qed.

Lemma nonempty_fixed ws :
  Forall (fun w : string => w <> EmptyString) ws -> nonempty ws = ws.
Proof.
  intros H. apply nonempty_id. intros Hin.
  rewrite Forall_forall in H. by apply (H EmptyString).
Qed.

Lemma words_nonempty s : Forall (fun w : string => w <> EmptyString) (words s).
Proof.
  apply Forall_forall. intros w Hw. unfold words, nonempty in Hw.
  by apply list_elem_of_filter in Hw as [Hw _].
Qed.

(** In a single-spaced text no piece between two spaces is empty; the first
    piece and the last one may be. *)
Lemma single_spaced_split s :
  (single_spaced true s = true ->
   EmptyString ∉ removelast (Py.split " " s))
  /\ (single_spaced false s = true ->
      EmptyString ∉ removelast (tail (Py.split " " s))).
Proof.
  unfold Py.split. induction s as [|c s [IHt IHf]].
  { split; intros _; cbn; apply not_elem_of_nil. }
  cbn [single_spaced Py.split_by]. destruct (Py.isspace c) eqn:Ec.
  - split; intros H.
    + apply andb_true_iff in H as [H _]. by apply andb_true_iff in H as [_ H].
    + apply andb_true_iff in H as [H Hs]. apply andb_true_iff in H as [Hc _].
      apply Ascii.eqb_eq in Hc as ->. rewrite Ascii.eqb_refl. cbn [tail].
      by apply IHt.
  - assert (Hc : Ascii.eqb " " c = false).
    { apply Ascii.eqb_neq. intros <-. done. }
    rewrite Hc.
    pose proof (split_by_nonnil (Ascii.eqb " ") s) as Hn.
    destruct (Py.split_by (Ascii.eqb " ") s) as [|w ws]; [done|].
    cbn [tail] in *. split; intros H; [|by apply IHf].
    destruct ws as [|w2 ws]; [cbn; apply not_elem_of_nil|].
    change (removelast (String c w :: w2 :: ws))
      with (String c w :: removelast (w2 :: ws)).
    apply not_elem_of_cons. split; [done|by apply IHf].
Qed.

(** A list whose entries are not empty, but possibly the last one. *)
Lemma nonempty_but_last (l : list string) :
  EmptyString ∉ removelast l ->
  exists e, l = (nonempty l ++ e)%list /\ (length e <= 1)%nat /\ nonempty e = [].
Proof.
  induction l as [|x l IH]; intros H.
  { exists []. repeat split; simpl; lia. }
  destruct l as [|y l].
  - destruct (decide (x = EmptyString)) as [->|Hx].
    + exists [EmptyString]. repeat split; simpl; lia.
    + exists []. unfold nonempty. rewrite filter_cons_True by done.
      repeat split; simpl; lia.
  - change (removelast (x :: y :: l)) with (x :: removelast (y :: l)) in H.
    apply not_elem_of_cons in H as [Hx H].
    destruct (IH H) as (e & E & Hl & Hn). exists e.
    split; [|done]. unfold nonempty in *.
    rewrite filter_cons_True by done. cbn [app]. by f_equal.
Qed.

Lemma clean_text_starts s : starts_ws (clean_text s) = starts_ws s.
Proof.
  unfold clean_text. rewrite <- (replace_starts s).
  destruct (Py.replace Py.LF Py.SP s) as [|c r]; [done|].
  cbn [Py.sub_spaces starts_ws]. by destruct (Py.isspace c) eqn:Ec.
Qed.

(** The word list of a page is its words, in order, between at most one
    empty string at each end; there is none at the start unless the text
    starts with whitespace. *)
Lemma page_words_edges page :
  exists e0 e1,
    page_words page
    = (e0 ++ words (clean_text (extract_text page)) ++ e1)%list
    /\ (length e0 <= 1)%nat /\ (length e1 <= 1)%nat
    /\ nonempty e0 = [] /\ nonempty e1 = []
    /\ (starts_ws (extract_text page) = false -> e0 = []).
Proof.
  unfold page_words. rewrite words_clean_text.
  pose proof (clean_text_starts (extract_text page)) as Hst.
  assert (Hs : single_spaced false (clean_text (extract_text page)) = true)
    by apply sub_spaces_single_spaced.
  destruct (clean_text (extract_text page)) as [|c s] eqn:Es.
  - exists [], [EmptyString]. repeat split; simpl; lia.
  - cbn [starts_ws single_spaced] in Hst, Hs.
    destruct (Py.isspace c) eqn:Ec.
    + apply andb_true_iff in Hs as [Hs Hs'].
      apply andb_true_iff in Hs as [Hc _]. apply Ascii.eqb_eq in Hc as ->.
      destruct (nonempty_but_last _ (proj1 (single_spaced_split s) Hs'))
        as (e & E & Hl & Hn).
      exists [EmptyString], e.
      change (Py.split " " (String " " s)) with (EmptyString :: Py.split " " s).
      rewrite nonempty_cons_empty. cbn [app]. rewrite <- E.
      repeat split; try done. intros H. congruence.
    + assert (Ht : single_spaced true (String c s) = true)
        by (cbn [single_spaced]; by rewrite Ec).
      destruct (nonempty_but_last _ (proj1 (single_spaced_split _) Ht))
        as (e & E & Hl & Hn).
      exists [], e. cbn [app]. repeat split; try done. simpl. lia.
Qed.

(** Two pages: the first one fills one window and carries the rest, which
    fits into one window with the second page. *)
Lemma emit_two_pages k l1 n1 l2 n2 :
  (0 < k)%nat -> (k <= length l1)%nat -> (length l1 < k + k)%nat ->
  l2 <> [] -> (length l1 - k + length l2 <= k)%nat ->
  emit k [] [(l1, n1); (l2, n2)]
  = [(take k l1, n1); ((drop k l1 ++ l2)%list, n2)].
Proof.
  intros Hk H1 H2 Hne H3.
  rewrite emit_cons. cbn [app has_next].
  rewrite (page_windows_step_len k Hk) by done.
  rewrite page_windows_short by (rewrite ?length_drop; lia).
  cbn [fst snd map app]. rewrite emit_cons. cbn [has_next].
  rewrite (page_windows_single k Hk); [done| | |lia].
  - intros E. by apply app_eq_nil in E as [_ ->].
  - rewrite length_app, length_drop. lia.
Qed.

(** The scenario for any window size [k]: a first page of at least [k]
    words whose text does not start with whitespace, and so few words in
    all that what the first page carries and the second page fit into one
    window. *)
Lemma two_pages_words k page1 page2 :
  (0 < k)%nat ->
  starts_ws (extract_text page1) = false ->
  (k <= length (words (clean_text (extract_text page1))))%nat ->
  (length (words (clean_text (extract_text page1)))
   + length (words (clean_text (extract_text page2))) + 3 <= k + k)%nat ->
  get_chunks [page1; page2] (Z.of_nat k)
  = Ok [(chunk_text (Py.slice (page_words page1) 0 k) (page_number page1),
         page_number page1);
        (chunk_text (Py.slice (page_words page1) k (k + k) ++ page_words page2)%list
                    (page_number page2),
         page_number page2)]
  /\ chunk_words
       (chunk_text (Py.slice (page_words page1) 0 k) (page_number page1),
        page_number page1)
     = Some (take k (words (clean_text (extract_text page1))))
  /\ chunk_words
       (chunk_text (Py.slice (page_words page1) k (k + k) ++ page_words page2)%list
                   (page_number page2),
        page_number page2)
     = Some (drop k (words (clean_text (extract_text page1)))
             ++ words (clean_text (extract_text page2)))%list.
Proof.
  intros Hk Hst H1 H2.
  pose proof (page_words_not_space page1) as W1.
  pose proof (page_words_not_space page2) as W2.
  destruct (page_words_edges page1) as (e0 & e1 & E1 & _ & L1 & _ & N1 & Z1).
  rewrite (Z1 Hst) in E1. cbn [app] in E1. clear Z1 e0.
  destruct (page_words_edges page2) as (f0 & f1 & E2 & M0 & M1 & N0 & N2 & _).
  pose proof (words_nonempty (clean_text (extract_text page1))) as V1.
  pose proof (words_nonempty (clean_text (extract_text page2))) as V2.
  assert (Hne : page_words page2 <> []) by apply split_by_nonnil.
  assert (S1 : Py.slice (page_words page1) 0 k = take k (page_words page1)).
  { unfold Py.slice. by rewrite Nat.sub_0_r. }
  assert (S2 : Py.slice (page_words page1) k (k + k) = drop k (page_words page1)).
  { unfold Py.slice. apply take_ge. rewrite length_drop. rewrite E1, length_app. lia. }
  rewrite S1, S2. clear S1 S2.
  split; [|split].
  - rewrite get_chunks_emit by done. unfold text_tokens_of. cbn [map].
    rewrite emit_two_pages; [done|done| | |done|].
    + rewrite E1, length_app. lia.
    + rewrite E1, length_app. lia.
    + rewrite E1, E2, !length_app. lia.
  - assert (T : entries_not_space (take k (page_words page1)))
      by by apply Forall_take.
    etrans; [exact (chunk_words_render _ (page_number page1) T)|].
    f_equal. rewrite E1, take_app_le by done.
    apply nonempty_fixed. by apply Forall_take.
  - assert (T : entries_not_space
                  (drop k (page_words page1) ++ page_words page2)%list)
      by (apply Forall_app; split; [by apply Forall_drop|done]).
    etrans; [exact (chunk_words_render _ (page_number page2) T)|].
    f_equal. rewrite E1, E2, drop_app_le by done.
    rewrite !nonempty_app, N1, N0, N2, !app_nil_r. cbn [app].
    rewrite (nonempty_fixed _ V2). f_equal.
    apply nonempty_fixed. by apply Forall_drop.
Qed.

End Edges.

(** C5 as stated fails: the first page holds 170 words and the second one
    80, but the text of the first page starts with a space, so its word
    list has 171 entries, the first one empty.  The first chunk is built
    from the empty entry and 149 words, and the second chunk holds 101
    words. *)
Lemma leading_space_gives_149_and_101 :
  length (words (clean_text (extract_text page_170_indented))) = 170%nat
  /\ length (words (clean_text (extract_text (mk_page 2 (numbered_words 80)))))
     = 80%nat
  /\ length (page_words page_170_indented) = 171%nat
  /\ (chunks <~ get_chunks [page_170_indented; mk_page 2 (numbered_words 80)] 150 ;;
      Ok (word_counts chunks, map snd chunks))
     = Ok ([Some 149%nat; Some 101%nat], [1; 2]).
Proof.
  split; [vm_compute; reflexivity|]. split; [vm_compute; reflexivity|].
  split; vm_compute; reflexivity.
Qed.

(** C5, amended: a page of 170 words whose text does not start with
    whitespace, then a page of 80 words, max_words = 150.  get_chunks emits
    exactly two chunks: the first is built from [words[0:150]] of page 1,
    holds the first 150 words of page 1 and carries the page number of
    page 1; the second is built from what is left of the word list of
    page 1 followed by the word list of page 2, holds the last 20 words of
    page 1 followed by the 80 words of page 2, 100 in all, and carries the
    page number of page 2.  Whitespace at the end of page 1 and at either
    end of page 2 changes none of this. *)
Theorem carry_170_80 (page1 page2 : PageObject) :
  starts_ws (extract_text page1) = false ->
  length (words (clean_text (extract_text page1))) = 170%nat ->
  length (words (clean_text (extract_text page2))) = 80%nat ->
  get_chunks [page1; page2] 150
  = Ok [(chunk_text (Py.slice (page_words page1) 0 150) (page_number page1),
         page_number page1);
        (chunk_text (Py.slice (page_words page1) 150 300 ++ page_words page2)%list
                    (page_number page2),
         page_number page2)]
  /\ chunk_words
       (chunk_text (Py.slice (page_words page1) 0 150) (page_number page1),
        page_number page1)
     = Some (take 150 (words (clean_text (extract_text page1))))
  /\ chunk_words
       (chunk_text (Py.slice (page_words page1) 150 300 ++ page_words page2)%list
                   (page_number page2),
        page_number page2)
     = Some (drop 150 (words (clean_text (extract_text page1)))
             ++ words (clean_text (extract_text page2)))%list
  /\ length (take 150 (words (clean_text (extract_text page1)))) = 150%nat
  /\ length (drop 150 (words (clean_text (extract_text page1)))) = 20%nat
  /\ length (drop 150 (words (clean_text (extract_text page1)))
             ++ words (clean_text (extract_text page2)))%list = 100%nat.
Proof.
  intros Hst H1 H2.
  destruct (two_pages_words 150 page1 page2) as (G & C1 & C2);
    [lia|exact Hst|rewrite H1; lia|rewrite H1, H2; lia|].
  split; [exact G|]. split; [exact C1|]. split; [exact C2|].
  split; [by rewrite length_take, H1|].
  split; [by rewrite length_drop, H1|].
  by rewrite length_app, length_drop, H1, H2.
Qed.

Lemma carry_170_80_witness :
  starts_ws (extract_text page_170) = false
  /\ length (words (clean_text (extract_text page_170))) = 170%nat
  /\ length (words (clean_text (extract_text page_80))) = 80%nat
  /\ length (page_words page_170) = 171%nat
  /\ length (page_words page_80) = 81%nat
  /\ get_chunks [page_170; page_80] 150
     = Ok [(chunk_text (Py.slice (page_words page_170) 0 150) 1, 1);
           (chunk_text (Py.slice (page_words page_170) 150 300
                        ++ page_words page_80)%list 2, 2)]
  /\ chunk_words (chunk_text (Py.slice (page_words page_170) 0 150) 1, 1)
     = Some (take 150 (words (clean_text (extract_text page_170))))
  /\ chunk_words
       (chunk_text (Py.slice (page_words page_170) 150 300
                    ++ page_words page_80)%list 2, 2)
     = Some (drop 150 (words (clean_text (extract_text page_170)))
             ++ words (clean_text (extract_text page_80)))%list.
Proof.
  assert (H0 : starts_ws (extract_text page_170) = false) by reflexivity.
  assert (H1 : length (words (clean_text (extract_text page_170))) = 170%nat)
    by (vm_compute; reflexivity).
  assert (H2 : length (words (clean_text (extract_text page_80))) = 80%nat)
    by (vm_compute; reflexivity).
  split; [exact H0|]. split; [exact H1|]. split; [exact H2|].
  split; [vm_compute; reflexivity|]. split; [vm_compute; reflexivity|].
  destruct (carry_170_80 page_170 page_80 H0 H1 H2) as (G & C1 & C2 & _).
  split; [exact G|]. split; [exact C1|exact C2].
Defined.

(** ** The identifiers of insert_document *)

Section Identifiers.

Lemma id_loop_ids name chunks : forall i dc di,
  (id_loop name i chunks (dc, di)).2
  = (di ++ imap (fun j c => document_id name c.2 (i + j)) chunks)%list.
Proof.
  induction chunks as [|[c n] chunks IH]; intros i dc di; simpl.
  - by rewrite app_nil_r.
  - rewrite IH, <- app_assoc. cbn [app]. rewrite Nat.add_0_r.
    do 2 f_equal. apply imap_ext. intros j x _. simpl.
    f_equal. lia.
Qed.

Lemma id_loop_chunks name chunks : forall i dc di,
  (id_loop name i chunks (dc, di)).1 = (dc ++ map fst chunks)%list.
Proof.
  induction chunks as [|[c n] chunks IH]; intros i dc di; simpl.
  - by rewrite app_nil_r.
  - by rewrite IH, <- app_assoc.
Qed.

Lemma digits_no_dash s : all_chars is_digit s = true -> no_dash s.
Proof.
  apply all_chars_impl. intros c. by destruct c as [[] [] [] [] [] [] [] []].
Qed.

(** The text after the last dash is determined by the whole string. *)
Lemma last_field_inj d1 d2 : no_dash d1 -> no_dash d2 -> forall a b,
  a +:+ String "-" d1 = b +:+ String "-" d2 -> d1 = d2.
Proof.
  intros H1 H2.
  assert (C : forall d d' s, no_dash d -> d <> s +:+ String "-" d').
  { intros d d' s Hd ->. unfold no_dash in Hd.
    rewrite all_chars_app in Hd. simpl in Hd.
    by rewrite andb_false_r in Hd. }
  induction a as [|x a IH]; intros [|y b] E; simpl in E.
  - by injection E.
  - injection E as _ E. by apply C in E.
  - injection E as _ E. symmetry in E. by apply C in E.
  - injection E as _ E. by apply (IH b).
Qed.

Lemma document_id_index name p q i j :
  document_id name p i = document_id name q j -> i = j.
Proof.
  unfold document_id. intros E.
  apply String.app_inj in E. apply (String.app_inj "_p") in E.
  apply last_field_inj in E; try apply digits_no_dash, str_nat_digits.
  apply str_int_inj in E. lia.
Qed.

End Identifiers.

(** C8: for every document name and every sequence of chunks, those that
    get_chunks produces among them, the identifiers that insert_document
    builds as [{document_name}_p{page_number}-{chunk_index}], with the
    index running over the whole sequence, are pairwise distinct; there is
    one per chunk text. *)
Theorem document_ids_distinct (document_name : string) (chunks : list (string * Z)) :
  NoDup (document_entries document_name chunks).2
  /\ length (document_entries document_name chunks).2
     = length (document_entries document_name chunks).1
  /\ (document_entries document_name chunks).1 = map fst chunks.
Proof.
  unfold document_entries.
  rewrite id_loop_ids, id_loop_chunks. cbn [app]. split.
  - apply NoDup_alt. intros i j x Hi Hj.
    rewrite list_lookup_imap in Hi, Hj.
    destruct (chunks !! i) as [ci|]; [|done].
    destruct (chunks !! j) as [cj|]; [|done].
    simpl in Hi, Hj. injection Hi as <-. injection Hj as Hj.
    by apply document_id_index in Hj.
  - by rewrite length_imap, length_map.
Qed.

(** ** The layout of the prompt *)

Section Prompt.

Lemma append_assoc (a b c : string) : (a +:+ b) +:+ c = a +:+ (b +:+ c).
Proof.
  induction a as [|x a IH]; [done|].
  change (String x ((a +:+ b) +:+ c) = String x (a +:+ (b +:+ c))).
  by rewrite IH.
Qed.

Lemma append_nil_r (a : string) : a +:+ EmptyString = a.
Proof.
  induction a as [|x a IH]; [done|].
  change (String x (a +:+ EmptyString) = String x a). by rewrite IH.
Qed.

Lemma concat_cons (x : string) (xs : list string) :
  String.concat EmptyString (x :: xs) = x +:+ String.concat EmptyString xs.
Proof. destruct xs; simpl; [by rewrite append_nil_r|done]. Qed.

(** The loop appends the chunks in their order, each with its two line
    breaks. *)
Lemma prompt_loop chunks : forall prompt,
  fold_left (fun prompt chunk => prompt +:+ (chunk +:+ NL +:+ NL)) chunks prompt
  = prompt +:+ String.concat EmptyString
                 (map (fun chunk => chunk +:+ NL +:+ NL) chunks).
Proof.
  induction chunks as [|c chunks IH]; intros prompt; cbn [fold_left map].
  - by rewrite append_nil_r.
  - by rewrite IH, concat_cons, append_assoc.
Qed.

End Prompt.

(** C7: for every question and every list of chunk texts, build_prompt
    returns the header, then each chunk text in the given order followed by
    two line breaks, then the instruction block, then three line breaks,
    [Query: ], the question, two line breaks and [Answer: ]; with no chunk
    the instruction block follows the header at once. *)
Theorem build_prompt_layout (question : string) (topn_chunks : list string) :
  build_prompt question topn_chunks
  = "Search results:" +:+ NL
    +:+ String.concat EmptyString
          (map (fun chunk => chunk +:+ NL +:+ NL) topn_chunks)
    +:+ instructions
    +:+ NL +:+ NL +:+ NL +:+ "Query: " +:+ question +:+ NL +:+ NL +:+ "Answer: "
  /\ build_prompt "Q" []
     = "Search results:" +:+ NL +:+ instructions
       +:+ NL +:+ NL +:+ NL +:+ "Query: Q" +:+ NL +:+ NL +:+ "Answer: ".
Proof.
  split; [|reflexivity].
  unfold build_prompt. rewrite prompt_loop.
  by rewrite !append_assoc.
Qed.

(** ** The ingestion cell runs at most once *)

(** get_chunks with the default max_words never raises. *)
Lemma get_chunks_default pages :
  exists chunks, get_chunks pages default_max_words = Ok chunks.
Proof.
  eexists. change default_max_words with (Z.of_nat 150%nat).
  apply get_chunks_emit. lia.
Qed.

Section Bootstrap.

Variable rejects : Collection -> list string -> list string -> bool.

Lemma ensure_exists w :
  exists_in w ->
  ensure_collection w = (Ok (COLLECTION_EXISTS, None), w).
Proof.
  intros [c Hc]. unfold ensure_collection, try_except, bindM, get_collection.
  by rewrite Hc.
Qed.

Lemma ensure_absent w :
  collections w !! demo_collection = None ->
  ensure_collection w
  = (Ok (COLLECTION_CREATED, Some demo_collection), created w).
Proof.
  intros Hc.
  unfold ensure_collection, try_except, bindM, get_collection,
    get_or_create_collection.
  rewrite Hc. simpl. by rewrite Hc.
Qed.

Lemma ingest_exists pdfs w :
  exists_in w ->
  ingest rejects pdfs w
  = (Ok COLLECTION_EXISTS,
     printed "Collection already exists. No new files are loaded." w).
Proof.
  intros Hw. unfold ingest, bindM at 1. by rewrite ensure_exists.
Qed.

(** insert_document keeps the collection, and calls [add] once. *)
Lemma insert_document_calls document w :
  exists_in w ->
  exists r w',
    insert_document rejects document (Some demo_collection) w = (r, w')
    /\ exists_in w'
    /\ add_calls w' = (add_calls w ++ [document_add document])%list
    /\ stdout w' = stdout w
    /\ ((forall c d i, rejects c d i = false) -> r = Ok tt).
Proof.
  intros [c Hc]. unfold insert_document, document_add.
  destruct (get_chunks_default (pages document)) as [chunks ->].
  destruct (document_entries _ chunks) as [dc di] eqn:E.
  unfold add. rewrite Hc. cbn [fst snd].
  destruct (rejects c dc di) eqn:Er; do 2 eexists; split; try reflexivity.
  - repeat split; [by exists c|]. intros H. by rewrite H in Er.
  - split; [|by repeat split]. unfold exists_in. cbn [collections].
    rewrite lookup_insert_eq. by eexists.
Qed.

(** The loop over the PDFs adds nothing but the documents' calls, in
    order, and stops at the first one the store rejects. *)
Lemma insert_loop pdfs : forall w,
  exists_in w ->
  exists r w' n,
    forM pdfs (fun d => insert_document rejects d (Some demo_collection)) w
    = (r, w')
    /\ exists_in w'
    /\ add_calls w' = (add_calls w ++ map document_add (take n pdfs))%list
    /\ stdout w' = stdout w
    /\ ((forall c d i, rejects c d i = false) ->
        r = Ok tt /\ n = length pdfs).
Proof.
  induction pdfs as [|d pdfs IH]; intros w Hw.
  - exists (Ok tt), w, O. repeat split; [done|]. by rewrite app_nil_r.
  - cbn [forM]. unfold bindM at 1.
    destruct (insert_document_calls d w Hw) as (r & w1 & -> & H1 & A1 & O1 & R1).
    destruct r as [[]|e].
    + destruct (IH w1 H1) as (r & w' & n & -> & H' & A' & O' & R').
      exists r, w', (S n). split; [done|]. split; [done|].
      split; [by rewrite A', A1, <- app_assoc|].
      split; [congruence|].
      intros H. destruct (R' H) as [-> ->]. done.
    + exists (Raise e), w1, 1%nat. split; [done|]. split; [done|].
      split; [rewrite A1; by destruct pdfs|]. split; [done|].
      intros H. by specialize (R1 H).
Qed.

Lemma ingest_absent pdfs w :
  collections w !! demo_collection = None ->
  exists r w' n,
    ingest rejects pdfs w = (r, w')
    /\ exists_in w'
    /\ collections (created w) !! demo_collection
       = Some {| metadata := [("hnsw:space", "cosine")];
                 documents := []; ids := [] |}
    /\ add_calls w' = (add_calls w ++ map document_add (take n pdfs))%list
    /\ ((forall c d i, rejects c d i = false) ->
        r = Ok COLLECTION_CREATED /\ n = length pdfs).
Proof.
  intros Hw. unfold ingest, bindM at 1. rewrite ensure_absent by done.
  unfold bindM at 1. cbn [print].
  assert (Hc : exists_in (printed "Creating collection..." (created w))).
  { unfold exists_in. cbn [printed created collections].
    rewrite lookup_insert_eq. by eexists. }
  unfold bindM at 1.
  destruct (insert_loop pdfs _ Hc) as (r & w' & n & E & H' & A' & O' & R').
  fold (printed "Creating collection..." (created w)).
  rewrite E. destruct r as [[]|e].
  - exists (Ok COLLECTION_CREATED), w', n. split; [done|]. split; [done|].
    split; [cbn [created collections]; by rewrite lookup_insert_eq|].
    split; [done|]. intros Hr. by destruct (R' Hr) as [_ ->].
  - exists (Raise e), w', n. split; [done|]. split; [done|].
    split; [cbn [created collections]; by rewrite lookup_insert_eq|].
    split; [done|]. intros Hr. by destruct (R' Hr).
Qed.

Lemma ingest_keeps pdfs w : exists_in (ingest rejects pdfs w).2.
Proof.
  destruct (collections w !! demo_collection) as [c|] eqn:Hc.
  - rewrite ingest_exists by by exists c. by exists c.
  - destruct (ingest_absent pdfs w Hc) as (r & w' & n & -> & H & _). done.
Qed.

End Bootstrap.

(** C6: if the lookup of the named collection succeeds, ensure_collection
    returns COLLECTION_EXISTS and the ingestion cell makes no call of [add]
    and leaves the collections as they are; only when the lookup fails is
    the collection created, with the cosine metadata, and insert_document
    run over the PDFs in order (over all of them when the store rejects
    none).  So a second run of the cell, after any first run, adds
    nothing. *)
Theorem ingest_at_most_once
    (rejects : Collection -> list string -> list string -> bool)
    (pdfs : list Document) (w : World) :
  (exists_in w ->
   ensure_collection w = (Ok (COLLECTION_EXISTS, None), w)
   /\ (ingest rejects pdfs w).1 = Ok COLLECTION_EXISTS
   /\ add_calls (ingest rejects pdfs w).2 = add_calls w
   /\ collections (ingest rejects pdfs w).2 = collections w)
  /\ (collections w !! demo_collection = None ->
      ensure_collection w
      = (Ok (COLLECTION_CREATED, Some demo_collection), created w)
      /\ collections (created w) !! demo_collection
         = Some {| metadata := [("hnsw:space", "cosine")];
                   documents := []; ids := [] |}
      /\ exists n,
           add_calls (ingest rejects pdfs w).2
           = (add_calls w ++ map document_add (take n pdfs))%list
           /\ ((forall c d i, rejects c d i = false) ->
               (ingest rejects pdfs w).1 = Ok COLLECTION_CREATED
               /\ n = length pdfs))
  /\ (forall again,
        (ingest rejects again (ingest rejects pdfs w).2).1 = Ok COLLECTION_EXISTS
        /\ add_calls (ingest rejects again (ingest rejects pdfs w).2).2
           = add_calls (ingest rejects pdfs w).2).
Proof.
  split; [|split].
  - intros Hw. rewrite ingest_exists by done. by rewrite ensure_exists.
  - intros Hw. split; [by apply ensure_absent|].
    destruct (ingest_absent rejects pdfs w Hw) as (r & w' & n & -> & _ & C & A & R).
    split; [done|]. by exists n.
  - intros again. by rewrite ingest_exists by apply ingest_keeps.
Qed.

Lemma ingest_at_most_once_witness :
  exists_in (created empty_world)
  /\ (ingest accepts_all [sample_pdf] (created empty_world)).1
     = Ok COLLECTION_EXISTS
  /\ add_calls (ingest accepts_all [sample_pdf] (created empty_world)).2 = []
  /\ collections empty_world !! demo_collection = None
  /\ (ingest accepts_all [sample_pdf] empty_world).1 = Ok COLLECTION_CREATED
  /\ add_calls (ingest accepts_all [sample_pdf] empty_world).2
     = [{| add_to := "harry_potter";
           add_documents := [labelled "0" "a b c"];
           add_ids := ["my-book-1_p0-0"] |}].
Proof.
  assert (E : exists_in (created empty_world)).
  { unfold exists_in. cbn [created collections]. rewrite lookup_insert_eq.
    by eexists. }
  assert (N : collections empty_world !! demo_collection = None) by done.
  split; [exact E|].
  destruct (ingest_at_most_once accepts_all [sample_pdf] (created empty_world))
    as [H1 _].
  destruct (H1 E) as (_ & S1 & A1 & _).
  split; [exact S1|]. split; [exact A1|]. split; [exact N|].
  destruct (ingest_at_most_once accepts_all [sample_pdf] empty_world)
    as (_ & H2 & _).
  destruct (H2 N) as (_ & _ & n & A2 & R2).
  destruct (R2 (fun _ _ _ => eq_refl)) as [S2 ->].
  split; [exact S2|]. rewrite A2. vm_compute. reflexivity.
Defined.

(** ** A fragment that fails to parse *)

(** C9, on the code: a fragment that fails to parse is not dropped.  The
    loop body goes on with the value [data] had before, so the content of
    the fragment before it is printed a second time; when the very first
    fragment fails to parse, [data] is unbound and NameError is raised. *)
Theorem malformed_fragment_repeats_previous :
  printed_by (consume [text_fragment "Hel"; Malformed; text_fragment "lo"]
                      fresh_cell)
  = Ok "HelHello"
  /\ printed_by (for_ [text_fragment "Hel"; Malformed; text_fragment "lo"]
                      consume_step_discarding fresh_cell)
     = Ok "Hello"
  /\ consume [Malformed; text_fragment "lo"] fresh_cell = Raise NameError.
Proof. repeat split; vm_compute; reflexivity. Qed.

(** * Further properties of the code *)

(** ** clean_text *)

(** X1: clean_text is idempotent: cleaning a cleaned text changes
    nothing. *)
Theorem clean_text_idempotent (raw_text : string) :
  clean_text (clean_text raw_text) = clean_text raw_text.
Proof. apply clean_text_twice. Qed.

(** X2: in a cleaned text every whitespace character is a space and no two
    spaces are adjacent; in particular it holds no line break and no tab. *)
Theorem clean_text_single_spaced (raw_text : string) :
  single_spaced false (clean_text raw_text) = true
  /\ all_chars (fun c => not_space c || Ascii.eqb " " c) (clean_text raw_text)
     = true.
Proof.
  split; [apply sub_spaces_single_spaced|apply sub_spaces_chars].
Qed.

(** X3: clean_text keeps the words of a text: the maximal runs of
    characters that are not whitespace are the same before and after. *)
Theorem clean_text_keeps_words (raw_text : string) :
  words (clean_text raw_text) = words raw_text.
Proof.
  unfold words, clean_text.
  destruct (split_sub_spaces (Py.replace Py.LF Py.SP raw_text))
    as (_ & w & ws & w' & ws' & E1 & E2 & -> & Hn).
  rewrite E1. rewrite split_replace in E2. rewrite E2.
  unfold nonempty in *. destruct (decide (w' = EmptyString)).
  - by rewrite !filter_cons_False by (intros ?; done).
  - rewrite !filter_cons_True by done. by f_equal.
Qed.

(** X4: get_chunks reads the page texts through clean_text only: cleaning
    the texts beforehand changes nothing of its result, whatever
    max_words is. *)
Theorem get_chunks_of_clean_pages (pages : list PageObject) (max_words : Z) :
  get_chunks (map clean_page pages) max_words = get_chunks pages max_words.
Proof.
  unfold get_chunks. rewrite map_map.
  assert (E : map (fun page => (page_words (clean_page page),
                                page_number (clean_page page))) pages
              = map (fun page => (page_words page, page_number page)) pages).
  { apply map_ext. intros page. unfold page_words, clean_page.
    cbn [extract_text page_number]. by rewrite clean_text_twice. }
  by rewrite E.
Qed.

(** ** get_chunks: bad max_words, and the shape of the output *)

Section Degenerate.

Lemma negative_loop max_words : max_words < 0 -> forall l tt chunks,
  Forall (fun idx => (idx < length tt)%nat) l ->
  for_ l (page_step max_words) (tt, chunks) = Ok (tt, chunks).
Proof.
  intros Hneg. induction l as [|idx l IH]; intros tt chunks Hl; [done|].
  inversion Hl as [|? ? Hidx Hl']; subst.
  cbn [for_]. unfold page_step at 1. cbn [fst].
  destruct (lookup_lt_is_Some_2 tt idx Hidx) as [[words n] ->].
  unfold range.
  replace (max_words =? 0) with false by (symmetry; apply Z.eqb_neq; lia).
  replace (max_words <? 0) with true by (symmetry; apply Z.ltb_lt; lia).
  cbn [bind for_]. by apply IH.
Qed.

End Degenerate.

(** X5: get_chunks on no page returns no chunk, whatever max_words is; on
    at least one page max_words = 0 raises ValueError (the step of the
    range), and a negative max_words returns no chunk at all, silently. *)
Theorem get_chunks_bad_max_words (pages : list PageObject) (max_words : Z) :
  get_chunks [] max_words = Ok []
  /\ (pages <> [] -> get_chunks pages 0 = Raise ValueError)
  /\ (max_words < 0 -> get_chunks pages max_words = Ok []).
Proof.
  split; [done|]. split.
  - intros Hne. destruct pages as [|page pages]; [done|]. reflexivity.
  - intros Hneg. unfold get_chunks.
    rewrite negative_loop; [done|done|].
    apply Forall_forall. intros idx Hidx. apply elem_of_seq in Hidx. lia.
Qed.

Lemma get_chunks_bad_max_words_witness :
  get_chunks [mk_page 1 "a b"] 0 = Raise ValueError
  /\ get_chunks [mk_page 1 "a b"] (-3) = Ok [].
Proof.
  destruct (get_chunks_bad_max_words [mk_page 1 "a b"] (-3)) as (_ & H0 & Hneg).
  split; [by apply H0|apply Hneg; lia].
Defined.

(** X6: page boundaries do not move chunk boundaries.  For a positive
    max_words the chunk texts of get_chunks are built from the windows of
    max_words entries of the one list of all entries of the document, in
    order; the pages only decide the labels, one per window. *)
Theorem get_chunks_windows (pages : list PageObject) (max_words : Z) :
  0 < max_words ->
  exists labels,
    length labels = length (windows_of (Z.to_nat max_words) (all_entries pages))
    /\ get_chunks pages max_words
       = Ok (zip_with (fun w n => (chunk_text w n, n))
               (windows_of (Z.to_nat max_words) (all_entries pages)) labels).
Proof.
  intros Hpos. assert (Hk : (0 < Z.to_nat max_words)%nat) by lia.
  exists (map snd (emit (Z.to_nat max_words) [] (text_tokens_of pages))).
  rewrite <- text_tokens_entries, <- (emit_windows _ Hk).
  split; [by rewrite !length_map|].
  rewrite <- render_zip. rewrite <- (Z2Nat.id max_words) at 1 by lia.
  by apply get_chunks_emit.
Qed.

Lemma get_chunks_windows_witness :
  0 < 2
  /\ exists labels,
       length labels
       = length (windows_of (Z.to_nat 2) (all_entries leading_space_pages))
       /\ get_chunks leading_space_pages 2
          = Ok (zip_with (fun w n => (chunk_text w n, n))
                  (windows_of (Z.to_nat 2) (all_entries leading_space_pages))
                  labels).
Proof.
  split; [lia|]. apply (get_chunks_windows leading_space_pages 2). lia.
Defined.

(** X7: for a positive max_words the number of chunks is the number of
    entries of all word lists divided by max_words, rounded up. *)
Theorem get_chunks_count (pages : list PageObject) (max_words : Z) :
  0 < max_words ->
  exists chunks,
    get_chunks pages max_words = Ok chunks
    /\ length chunks
       = ((length (all_entries pages) + Z.to_nat max_words - 1)
          / Z.to_nat max_words)%nat.
Proof.
  intros Hpos. assert (Hk : (0 < Z.to_nat max_words)%nat) by lia.
  eexists. split.
  - rewrite <- (Z2Nat.id max_words) at 1 by lia. by apply get_chunks_emit.
  - rewrite length_map, <- (length_map fst), (emit_windows _ Hk).
    rewrite text_tokens_entries. unfold windows_of.
    by apply windows_count.
Qed.

Lemma get_chunks_count_witness :
  0 < 2
  /\ exists chunks,
       get_chunks leading_space_pages 2 = Ok chunks
       /\ length chunks = 3%nat.
Proof.
  split; [lia|]. apply (get_chunks_count leading_space_pages 2). lia.
Defined.

(** X8: for a positive max_words every chunk is built from at least one
    and at most max_words entries, and so holds at most max_words words. *)
Theorem chunks_at_most_max_words (pages : list PageObject) (max_words : Z) :
  0 < max_words ->
  exists chunks,
    get_chunks pages max_words = Ok chunks
    /\ Forall (fun chunk =>
                 exists window ws,
                   chunk.1 = chunk_text window chunk.2
                   /\ window <> []
                   /\ (length window <= Z.to_nat max_words)%nat
                   /\ chunk_words chunk = Some ws
                   /\ (length ws <= Z.to_nat max_words)%nat) chunks.
Proof.
  intros Hpos. assert (Hk : (0 < Z.to_nat max_words)%nat) by lia.
  eexists. split.
  - rewrite <- (Z2Nat.id max_words) at 1 by lia. by apply get_chunks_emit.
  - apply Forall_map.
    pose proof (emit_sizes _ Hk (text_tokens_of pages) []) as Hs.
    rewrite Forall_map in Hs.
    assert (Forall (fun e : list string * Z => entries_not_space e.1)
              (emit (Z.to_nat max_words) [] (text_tokens_of pages))) as Hn
      by (apply emit_not_space; [constructor|apply text_tokens_not_space]).
    assert (Forall (fun e : list string * Z =>
                      (e.1 <> [] /\ (length e.1 <= Z.to_nat max_words)%nat)
                      /\ entries_not_space e.1)
              (emit (Z.to_nat max_words) [] (text_tokens_of pages))) as H
      by (apply Forall_and; by split).
    clear Hs Hn.
    eapply Forall_impl; [exact H|].
    intros [w n] [[Hne Hle] Hw]. cbn [fst snd] in *.
    exists w, (nonempty w). split; [done|]. split; [done|]. split; [done|].
    split; [by apply chunk_words_render|].
    unfold nonempty. etrans; [apply length_filter|done].
Qed.

Lemma chunks_at_most_max_words_witness :
  0 < 2
  /\ exists chunks,
       get_chunks leading_space_pages 2 = Ok chunks
       /\ Forall (fun chunk =>
                    exists window ws,
                      chunk.1 = chunk_text window chunk.2
                      /\ window <> []
                      /\ (length window <= Z.to_nat 2)%nat
                      /\ chunk_words chunk = Some ws
                      /\ (length ws <= Z.to_nat 2)%nat) chunks.
Proof.
  split; [lia|]. apply (chunks_at_most_max_words leading_space_pages 2). lia.
Defined.



(** ** The chunk string *)

Section ChunkString.

Lemma first_field_inj a : forall b r r',
  all_chars (fun x => negb (Ascii.eqb x "]")) a = true ->
  all_chars (fun x => negb (Ascii.eqb x "]")) b = true ->
  a +:+ String "]" r = b +:+ String "]" r' -> a = b /\ r = r'.
Proof.
  induction a as [|x a IH]; intros [|y b] r r' Ha Hb E; simpl in *.
  - by injection E.
  - injection E as <- _. by rewrite Ascii.eqb_refl in Hb.
  - injection E as -> _. by rewrite Ascii.eqb_refl in Ha.
  - injection E as -> E.
    apply andb_true_iff in Ha as [_ Ha]. apply andb_true_iff in Hb as [_ Hb].
    destruct (IH b r r' Ha Hb E) as [-> ->]. done.
Qed.

Lemma chunk_text_parts w n :
  chunk_text w n
  = "[Page no. "
    +:+ (Py.str_int n
         +:+ String "]"
               (String " "
                  (String Py.DQUOTE
                     (Py.strip (Py.join " " w) +:+ String Py.DQUOTE "")))).
Proof. reflexivity. Qed.

Lemma chunk_text_inj w n w' n' :
  chunk_text w n = chunk_text w' n' ->
  n = n' /\ Py.strip (Py.join " " w) = Py.strip (Py.join " " w').
Proof.
  rewrite !chunk_text_parts. intros E. apply String.app_inj in E.
  apply first_field_inj in E as [En Et];
    try (eapply all_chars_impl; [apply not_bracket|apply str_int_chars]).
  split; [by apply str_int_inj|].
  injection Et as Et. apply (f_equal (strip_last Py.DQUOTE)) in Et.
  rewrite !strip_last_app in Et. by injection Et.
Qed.

Lemma join_chars ws :
  entries_not_space ws ->
  all_chars (fun c => not_space c || Ascii.eqb " " c) (Py.join " " ws) = true.
Proof.
  induction ws as [|w ws IH]; intros H; [done|].
  inversion H as [|? ? Hw Hws]; subst.
  assert (Hq : all_chars (fun c => not_space c || Ascii.eqb " " c) w = true).
  { eapply all_chars_impl; [|exact Hw]. by intros c ->. }
  destruct ws as [|w' ws]; [done|].
  rewrite join_cons, all_chars_app, Hq. cbn [all_chars andb].
  by apply IH.
Qed.

Lemma lstrip_chars p s : all_chars p s = true -> all_chars p (Py.lstrip s) = true.
Proof.
  induction s as [|c s IH]; [done|]. intros H. cbn [Py.lstrip].
  destruct (Py.isspace c); [|done].
  apply IH. cbn in H. by apply andb_true_iff in H as [_ H].
Qed.

Lemma rstrip_chars p s : all_chars p s = true -> all_chars p (Py.rstrip s) = true.
Proof.
  induction s as [|c s IH]; [done|]. cbn [all_chars Py.rstrip].
  rewrite andb_true_iff. intros [Hc Hs]. specialize (IH Hs).
  destruct (Py.rstrip s) as [|x r].
  - destruct (Py.isspace c); [done|]. cbn. by rewrite Hc.
  - cbn [all_chars] in *. by rewrite Hc, IH.
Qed.

Lemma lstrip_starts s : starts_ws (Py.lstrip s) = false.
Proof.
  induction s as [|c s IH]; [done|]. cbn [Py.lstrip].
  destruct (Py.isspace c) eqn:Ec; [done|]. exact Ec.
Qed.

Lemma rstrip_starts s : starts_ws s = false -> starts_ws (Py.rstrip s) = false.
Proof.
  destruct s as [|c s]; [done|]. cbn [starts_ws Py.rstrip]. intros Hc.
  destruct (Py.rstrip s); [by rewrite Hc|done].
Qed.

Lemma rstrip_ends s : ends_ws (Py.rstrip s) = false.
Proof.
  induction s as [|c s IH]; [done|]. cbn [Py.rstrip].
  destruct (Py.rstrip s) as [|x r].
  - destruct (Py.isspace c) eqn:Ec; [done|]. exact Ec.
  - exact IH.
Qed.

(** The text of a rendered window. *)
Lemma window_text_tidy w :
  entries_not_space w ->
  starts_ws (Py.strip (Py.join " " w)) = false
  /\ ends_ws (Py.strip (Py.join " " w)) = false
  /\ all_chars (fun c => not_space c || Ascii.eqb " " c)
       (Py.strip (Py.join " " w)) = true.
Proof.
  intros Hw. unfold Py.strip. split; [|split].
  - apply rstrip_starts, lstrip_starts.
  - apply rstrip_ends.
  - by apply rstrip_chars, lstrip_chars, join_chars.
Qed.

End ChunkString.

(** X10: the chunk string determines the page number in its label and the
    text between its quotes: two windows and page numbers that give the
    same chunk string have the same page number and the same stripped
    text. *)
Theorem chunk_text_determines_label
    (chunk chunk' : list string) (page_number page_number' : Z) :
  chunk_text chunk page_number = chunk_text chunk' page_number' ->
  page_number = page_number'
  /\ Py.strip (Py.join " " chunk) = Py.strip (Py.join " " chunk').
Proof. apply chunk_text_inj. Qed.

Lemma chunk_text_determines_label_witness :
  chunk_text ["a"; ""] 3 = chunk_text [""; "a"] 3
  /\ 3 = 3
  /\ Py.strip (Py.join " " ["a"; ""]) = Py.strip (Py.join " " [""; "a"]).
Proof.
  split; [reflexivity|].
  apply (chunk_text_determines_label ["a"; ""] [""; "a"] 3 3). reflexivity.
Defined.

(** X11: for a positive max_words the text between the quotes of every
    emitted chunk neither starts nor ends with whitespace, and its only
    whitespace characters are spaces: no chunk holds a line break or a
    tab. *)
Theorem chunk_texts_are_stripped (pages : list PageObject) (max_words : Z) :
  0 < max_words ->
  exists chunks,
    get_chunks pages max_words = Ok chunks
    /\ Forall (fun chunk =>
                 exists text,
                   unwrap chunk.1 = Some text
                   /\ starts_ws text = false
                   /\ ends_ws text = false
                   /\ all_chars (fun c => not_space c || Ascii.eqb " " c) text
                      = true) chunks.
Proof.
  intros Hpos. assert (Hk : (0 < Z.to_nat max_words)%nat) by lia.
  eexists. split.
  - rewrite <- (Z2Nat.id max_words) at 1 by lia. by apply get_chunks_emit.
  - apply Forall_map.
    assert (Forall (fun e : list string * Z => entries_not_space e.1)
              (emit (Z.to_nat max_words) [] (text_tokens_of pages))) as Hn
      by (apply emit_not_space; [constructor|apply text_tokens_not_space]).
    eapply Forall_impl; [exact Hn|].
    intros [w n] Hw. cbn [fst snd render] in *.
    eexists. split; [apply unwrap_chunk_text|]. by apply window_text_tidy.
Qed.

Lemma chunk_texts_are_stripped_witness :
  0 < 2
  /\ exists chunks,
       get_chunks leading_space_pages 2 = Ok chunks
       /\ Forall (fun chunk =>
                    exists text,
                      unwrap chunk.1 = Some text
                      /\ starts_ws text = false
                      /\ ends_ws text = false
                      /\ all_chars (fun c => not_space c || Ascii.eqb " " c) text
                         = true) chunks.
Proof.
  split; [lia|]. apply (chunk_texts_are_stripped leading_space_pages 2). lia.
Defined.

(** ** insert_document: the document name *)

(** X12: the document name that insert_document derives from a file stem
    holds neither a space nor an underscore, is as long as the stem, and
    deriving a name from a name changes nothing. *)
Theorem document_name_normalized (stem : string) :
  all_chars (fun c => negb (Ascii.eqb c " ") && negb (Ascii.eqb c "_"))
            (document_name_of stem) = true
  /\ String.length (document_name_of stem) = String.length stem
  /\ document_name_of (document_name_of stem) = document_name_of stem.
Proof.
  unfold document_name_of. induction stem as [|c stem (IH1 & IH2 & IH3)].
  - done.
  - cbn [Py.replace all_chars String.length]. rewrite IH1, IH2, IH3.
    destruct (Ascii.eqb_spec c " ") as [->|H1]; [done|].
    destruct (Ascii.eqb_spec c "_") as [->|H2]; [done|].
    apply Ascii.eqb_neq in H1, H2. rewrite !H1. cbn iota. by rewrite !H2.
Qed.

(** ** The ingestion cell without its PDFs *)

Section Runs.

Variable rejects : Collection -> list string -> list string -> bool.




End Runs.



(** ** The streaming cells *)

Section Streams.

Lemma for_app {A S} (body : A -> S -> result S) l1 : forall l2 s,
  for_ (l1 ++ l2) body s = (s' <~ for_ l1 body s ;; for_ l2 body s').
Proof.
  induction l1 as [|x l1 IH]; intros l2 s; [done|].
  cbn [app for_]. destruct (body x s) as [s1|e]; [|done]. cbn [bind]. apply IH.
Qed.

Lemma consume_step_payload d s stop content :
  d !! "stop" = Some stop -> is_False stop = true ->
  d !! "content" = Some content ->
  consume_step (Payload d) s
  = Ok {| data := Some d;
          printed_text := printed_text s +:+ str_json content |}.
Proof.
  intros Hs Hf Hc. unfold consume_step, getitem. rewrite Hs. cbn [bind].
  rewrite Hf, Hc. done.
Qed.

Lemma consume_step_data d s s' :
  consume_step (Payload d) s = Ok s' -> data s' = Some d.
Proof.
  unfold consume_step, getitem.
  destruct (d !! "stop") as [stop|]; [|done]. cbn [bind].
  destruct (is_False stop).
  - destruct (d !! "content"); [|done]. cbn [bind]. by intros [= <-].
  - destruct (d !! "timings"); [|done]. cbn [bind]. by intros [= <-].
Qed.

Lemma consume_step_stale d s :
  data s = Some d -> consume_step Malformed s = consume_step (Payload d) s.
Proof. intros H. unfold consume_step. by rewrite H. Qed.

Lemma print_stream_rest cursor rs : forall count out,
  print_stream_from cursor (S count) rs out
  = out +:+ String.concat EmptyString rs.
Proof.
  induction rs as [|r rs IH]; intros count out.
  - cbn. by rewrite append_nil_r.
  - cbn [print_stream_from Nat.eqb]. by rewrite IH, concat_cons, append_assoc.
Qed.

End Streams.

(** X17: when every fragment of the response parses to an object whose
    [stop] is false and that has a [content], the llama.cpp cell raises
    nothing and prints the contents one after the other, in the order of
    arrival, with nothing between them. *)
Theorem consume_concatenates_contents
    (chunks : list fragment) (contents : list json) (s : Cell) :
  Forall2 carries chunks contents ->
  printed_by (consume chunks s)
  = Ok (printed_text s +:+ String.concat EmptyString (map str_json contents)).
Proof.
  intros H. revert s. unfold consume.
  induction H as [|chunk content chunks contents (d & -> & Hs & Hc) _ IH];
    intros s.
  - cbn. by rewrite append_nil_r.
  - cbn [for_ map]. rewrite (consume_step_payload d s _ _ Hs eq_refl Hc).
    cbn [bind]. rewrite IH. cbn [printed_text].
    by rewrite concat_cons, append_assoc.
Qed.

Lemma consume_concatenates_contents_witness :
  Forall2 carries [text_fragment "Hel"; text_fragment "lo"]
                  [JString "Hel"; JString "lo"]
  /\ printed_by (consume [text_fragment "Hel"; text_fragment "lo"] fresh_cell)
     = Ok "Hello".
Proof.
  assert (H : Forall2 carries [text_fragment "Hel"; text_fragment "lo"]
                              [JString "Hel"; JString "lo"]).
  { repeat constructor; eexists; (split; [reflexivity|]); split;
      vm_compute; reflexivity. }
  split; [exact H|].
  exact (consume_concatenates_contents _ _ fresh_cell H).
Defined.

(** X18: in the llama.cpp cell a fragment that fails to parse has the
    effect of the fragment parsed before it arriving a second time,
    wherever in the stream it stands. *)
Theorem malformed_repeats_last_parsed
    (before after : list fragment) (d : gmap string json) (s : Cell) :
  consume (before ++ Payload d :: Malformed :: after) s
  = consume (before ++ Payload d :: Payload d :: after) s.
Proof.
  unfold consume. rewrite !for_app.
  destruct (for_ before consume_step s) as [s1|e]; [|done].
  cbn [bind for_].
  destruct (consume_step (Payload d) s1) as [s2|e] eqn:E; [|done].
  cbn [bind]. by rewrite (consume_step_stale d s2 (consume_step_data _ _ _ E)).
Qed.

(** X19: the watsonx cell never prints the first fragment of the stream:
    it prints the cursor and a line break in its place, and then every
    later fragment as it is; of an empty stream it prints nothing. *)
Theorem print_stream_drops_first (cursor response : string)
    (responses : list string) :
  print_stream cursor [] = EmptyString
  /\ print_stream cursor (response :: responses)
     = cursor +:+ NL +:+ String.concat EmptyString responses.
Proof.
  split; [done|]. unfold print_stream. cbn [print_stream_from Nat.eqb].
  rewrite print_stream_rest.
  change (EmptyString +:+ cursor +:+ NL) with (cursor +:+ NL).
  by rewrite append_assoc.
Qed.

(** X20: build_prompt does not keep the boundaries of the chunks: two
    neighbouring chunks give the same prompt as the one chunk made of the
    first, two line breaks and the second. *)
Theorem build_prompt_merges_chunks
    (question chunk1 chunk2 : string) (before after : list string) :
  build_prompt question (before ++ chunk1 :: chunk2 :: after)
  = build_prompt question (before ++ (chunk1 +:+ NL +:+ NL +:+ chunk2) :: after).
Proof.
  unfold build_prompt. rewrite !fold_left_app. cbn [fold_left].
  by rewrite !append_assoc.
Qed.
